(** * Frame-based sensitivity pipeline: a shallow embedding

    This development embeds the sensitivity-analysis pipeline of the
    content-sensitivity backend and checks the statements of its design
    document against it.  Two variants of the analysis service exist in
    the sources: the pixel-statistics service
    ([services/sensitivityAnalysis.ts], at most 30 frames, thresholds
    0.4/0.4) and a file-size-only service (at most 10 frames, thresholds
    0.7/0.5, random placeholder score).  The orchestrator
    ([processVideo]) drives whichever service is imported.

    Conventions of the embedding.
    - JavaScript numbers are modelled by the numbers they denote:
      integers as [Z], fractional quantities (durations, scores, pixel
      statistics) as [Q].  The formulas of the frame scorers are
      evaluated exactly.  The sum and the mean of the scores are
      evaluated as the code evaluates them, in binary64 arithmetic
      ([to_double]: round to nearest, ties to even), because the verdict
      at a threshold depends on it.  The values [NaN] and [Infinity] are
      written out where the code can produce them: a division by a zero
      interval, and a duration that the probe reports as text.
    - A rejected promise or a thrown exception is the [Err] case of
      [result]; [try]/[catch] is [try_catch].
    - The file system, the video collection, the in-memory job queue and
      the socket channel are fields of an explicit [state] that every
      operation threads.  The external collaborators (ffprobe, ffmpeg,
      sharp, the operating system, the database driver) are fields of an
      environment [env]; the theorems quantify over all environments. *)

From Stdlib Require Import ZArith QArith Qround Qminmax Qabs Lqa Lia.
From Stdlib Require Import Ascii String DecimalString DecimalZ.
From Stdlib Require Import List Permutation Sorted.
From stdpp Require Import gmap strings list fin_maps.

Local Open Scope string_scope.
Local Open Scope Z_scope.

(** ** JavaScript primitives *)

(** [String(n)] for an integer [n]: decimal digits, with a leading minus
    sign for negative numbers. *)
Definition String_of (n : Z) : string :=
  NilZero.string_of_int (Z.to_int n).

(** [s.padStart(n, c)] for a one-character pad string. *)
Definition padStart (n : nat) (c : ascii) (s : string) : string :=
  String.concat "" (List.repeat (String c "") (n - String.length s)) ++ s.

(** [s.endsWith(suffix)]. *)
Definition endsWith (s suffix : string) : bool :=
  let ls := String.length s in
  let lx := String.length suffix in
  (lx <=? ls)%nat &&
  String.eqb (String.substring (ls - lx) lx s) suffix.

(** [Math.floor(a / b)] for an integer [a] and a positive integer
    constant [b]. *)
Definition floor_div (a b : Z) : Z := a / b.

(** [a % b]: the remainder takes the sign of the dividend. *)
Definition js_rem (a b : Z) : Z := Z.rem a b.

(** [Math.round(x)]: nearest integer, halves rounded towards
    [+Infinity]. *)
Definition Math_round (x : Q) : Z := Qfloor (x + (1 # 2))%Q.

(** A number as [Math.round] returns it: an integer, or [NaN] when the
    argument does not read as a number. *)
Inductive whole_number := NaN | whole (n : Z).

Definition Math_round_of (x : option Q) : whole_number :=
  match x with
  | Some x => whole (Math_round x)
  | None => NaN
  end.

(** The boolean comparison [x > y] on numbers. *)
Definition Qgtb (x y : Q) : bool := negb (Qle_bool x y).

(** *** Binary64 numbers

    [to_double x] is the double nearest to [x], ties going to the even
    significand.  On the scale of [2^-1074], the smallest positive
    double, every double is an integer [m * 2^k] with [m < 2^53]; the
    spacing is [1] below [2^53] (the subnormal numbers and the first
    binade) and doubles with every further binade.  Overflow to
    [Infinity] is not modelled: a sum of scores stays far below
    [2^1024]. *)
Definition round_half_even (y : Q) : Z :=
  let f := Qfloor y in
  match (y - inject_Z f ?= 1 # 2)%Q with
  | Lt => f
  | Gt => f + 1
  | Eq => if Z.even f then f else f + 1
  end.

Definition ulp_exponent (X : Q) : Z := Z.max 0 (Z.log2 (Qfloor X) - 52).

Definition round_scaled (X : Q) : Z :=
  let k := ulp_exponent X in
  round_half_even (X / inject_Z (2 ^ k)) * 2 ^ k.

Definition to_double (x : Q) : Q :=
  match (x ?= 0)%Q with
  | Eq => 0%Q
  | Gt =>
      (inject_Z (round_scaled (x * inject_Z (2 ^ 1074)))
       / inject_Z (2 ^ 1074))%Q
  | Lt =>
      (- (inject_Z (round_scaled (- x * inject_Z (2 ^ 1074)))
          / inject_Z (2 ^ 1074)))%Q
  end.

(** [a + b] and [a / b] on doubles: the exact result, rounded. *)
Definition double_add (a b : Q) : Q := to_double (a + b).
Definition double_div (a b : Q) : Q := to_double (a / b).

(** ** Frame extractor: timestamp generation

    [extractFrames], lines 36-60 of [services/sensitivityAnalysis.ts]
    (bound 30) and lines 35-59 of the file-size-only service (bound 10).
    The bound is the only difference, so it is a parameter [cap]. *)

(** The value of [metadata.format?.duration] as the probe delivers it:
    the field is absent ([undefined]), it is a number, or it is a text
    that does not read as a number.  The probing library turns the
    fields that are written as decimal numbers into numbers and leaves
    the others as strings; for a stream of unknown duration the probe
    prints [N/A]. *)
Inductive probed_duration :=
| duration_absent
| duration_number (d : Q)
| duration_text.

(** [metadata.format?.duration || 0]: an absent duration and a zero
    duration both give [0]; a text is truthy and stays.  [None] stands
    for the text, which is [NaN] wherever it is used as a number. *)
Definition duration_or_zero (probed : probed_duration) : option Q :=
  match probed with
  | duration_number d => Some (if Qeq_bool d 0%Q then 0%Q else d)
  | duration_absent => Some 0%Q
  | duration_text => None
  end.

(** [Math.max(1, Math.min(cap, Math.floor(duration / interval)))].
    [None] stands for [NaN].  With a zero interval the quotient is
    [+Infinity] (positive duration: [Math.min] gives [cap]),
    [-Infinity] (negative duration: [Math.max] gives [1]) or [NaN]
    (zero duration: [Math.min] and [Math.max] propagate it).  A
    duration that is a text gives [NaN] whatever the interval. *)
Definition numFrames (cap : Z) (duration : option Q) (interval : Z)
  : option Z :=
  match duration with
  | None => None
  | Some duration =>
      if interval =? 0 then
        if Qeq_bool duration 0%Q then None
        else if Qle_bool 0%Q duration then Some (Z.max 1 cap)
        else Some 1
      else Some (Z.max 1 (Z.min cap (Qfloor (duration / inject_Z interval))))
  end.

(** The body of the loop: the [HH:MM:SS] string of offset
    [i * interval]. *)
Definition format_timestamp (seconds : Z) : string :=
  let hours := floor_div seconds 3600 in
  let mins := floor_div (js_rem seconds 3600) 60 in
  let secs := js_rem seconds 60 in
  padStart 2 "0" (String_of hours) ++ ":" ++
  padStart 2 "0" (String_of mins) ++ ":" ++
  padStart 2 "0" (String_of secs).

(** [for (let i = 0; i < numFrames; i++)]: no iteration when the bound
    is [NaN]. *)
Definition loop_indices (n : option Z) : list Z :=
  match n with
  | Some k => List.map Z.of_nat (List.seq 0 (Z.to_nat k))
  | None => []
  end.

(** The [timestamps] array handed to [screenshots], including the
    fallback of lines 57-60. *)
Definition timestamps (cap : Z) (probed : probed_duration) (interval : Z)
  : list string :=
  let duration := duration_or_zero probed in
  let ts := List.map (fun i => format_timestamp (i * interval))
                     (loop_indices (numFrames cap duration interval)) in
  if (List.length ts =? 0)%nat then ts ++ ["00:00:01"] else ts.

(** *** Reading a timestamp back

    The decoding backend reads [HH:MM:SS] as
    [HH * 3600 + MM * 60 + SS] seconds.  This is the meaning of a
    generated timestamp, used to state at which offset a frame is
    requested. *)

Fixpoint colon_fields (s : string) : list string :=
  match s with
  | EmptyString => [EmptyString]
  | String c r =>
      if Ascii.eqb c ":" then EmptyString :: colon_fields r
      else match colon_fields r with
           | f :: fs => String c f :: fs
           | [] => [String c EmptyString]
           end
  end.

Fixpoint colon_free (s : string) : bool :=
  match s with
  | EmptyString => true
  | String c r => negb (Ascii.eqb c ":") && colon_free r
  end.

Definition parse_int (s : string) : option Z :=
  option_map Z.of_int (NilZero.int_of_string s).

Definition seconds_of_timestamp (ts : string) : option Z :=
  match colon_fields ts with
  | [h; m; s] =>
      match parse_int h, parse_int m, parse_int s with
      | Some h, Some m, Some s => Some (h * 3600 + m * 60 + s)
      | _, _, _ => None
      end
  | _ => None
  end.

(** [clamp x lo hi] as the design document uses it. *)
Definition clamp (x lo hi : Z) : Z := Z.max lo (Z.min hi x).

(** ** Results, state and environment *)

(** The outcome of an awaited operation: a value, or the message of the
    error it threw. *)
Inductive result (A : Type) : Type :=
| Ok (a : A)
| Err (msg : string).
Arguments Ok {A} a.
Arguments Err {A} msg.

(** A path below a directory.  [path.join(dir, name)] is the pair
    [(dir, name)]; the pipeline only ever joins a directory with one of
    its entries. *)
Definition path : Type := string * string.
Definition path_join (dir name : string) : path := (dir, name).

(** One channel of [sharp(...).stats()]. *)
Record channel := { mean : Q; stdev : Q }.

(** A file: its byte size ([stats.size]) and what decoding it for
    statistics yields, the channel list or the decoder's error. *)
Record file := { size : Z; image : result (list channel) }.

(** Safety verdicts and the statuses of a video record. *)
Inductive SensitivityVerdict := safe | flagged.
Inductive SafetyStatus := unknown | verdict (v : SensitivityVerdict).
Inductive VideoStatus := uploaded | processing | processed | failed.

(** The Video document: [IVideo] and [videoSchema] of [models/Video]
    (in the sources the module follows [middleware/auth.ts], lines 48 to
    139 of that file).  The record keeps the fields that the pipeline
    reads or writes: [tenantId], [storagePath], [status] (default
    [uploaded]),
    [safetyStatus] (default [unknown]) and the optional [duration]; the
    [_id] is the key of the collection.  The other fields of the schema
    ([ownerId], [assignedTo], [title], [description],
    [originalFilename], [mimeType], [size] and the two time stamps) are
    neither read nor set by the code modelled here. *)
Record Video := {
  v_tenantId : string;
  v_storagePath : string;
  v_status : VideoStatus;
  v_safetyStatus : SafetyStatus;
  v_duration : option whole_number
}.

(** The [$set] document of an update: the fields present are
    overwritten. *)
Record updates := {
  u_status : option VideoStatus;
  u_safetyStatus : option SensitivityVerdict;
  u_duration : option whole_number
}.

Definition apply_updates (u : updates) (v : Video) : Video :=
  {| v_tenantId := v_tenantId v;
     v_storagePath := v_storagePath v;
     v_status := default (v_status v) (u_status u);
     v_safetyStatus :=
       match u_safetyStatus u with
       | Some s => verdict s
       | None => v_safetyStatus v
       end;
     v_duration :=
       match u_duration u with
       | Some d => Some d
       | None => v_duration v
       end |}.

(** [ProcessingJob], lines 267-273. *)
Inductive JobStatus := queued | job_processing | completed | job_failed.

Record ProcessingJob := {
  j_videoId : string;
  j_tenantId : string;
  j_status : JobStatus;
  j_progress : Z;
  j_safetyStatus : option SensitivityVerdict
}.

(** Events emitted to the tenant room of the socket server. *)
Inductive event :=
| processing_start (videoId : string) (progress : Z)
| processing_progress (videoId : string) (progress : Z) (message : string)
| processing_completed (videoId : string) (progress : Z)
    (safetyStatus : SensitivityVerdict) (duration : whole_number)
| processing_failed (videoId : string) (error : string).

(** The mutable world.  [fs] maps the path of every directory to the
    regular files it holds, by name; a directory and the directories
    above it are separate keys.  [heap] holds the job objects, addressed
    by their allocation index: the queue stores a reference to the
    object that [processVideo] keeps mutating.  [progress_log] records
    each value written to a job's [progress] field, oldest first; it is
    read by no operation. *)
Record state := {
  fs : gmap string (gmap string file);
  draws : nat;
  videos : gmap string Video;
  heap : list ProcessingJob;
  processingQueue : gmap string nat;
  emitted : list (string * event);
  progress_log : list Z
}.

Definition with_fs (f : gmap string (gmap string file)) (st : state) :=
  {| fs := f; draws := draws st; videos := videos st; heap := heap st;
     processingQueue := processingQueue st; emitted := emitted st;
     progress_log := progress_log st |}.
Definition with_draws (n : nat) (st : state) :=
  {| fs := fs st; draws := n; videos := videos st; heap := heap st;
     processingQueue := processingQueue st; emitted := emitted st;
     progress_log := progress_log st |}.
Definition with_videos (v : gmap string Video) (st : state) :=
  {| fs := fs st; draws := draws st; videos := v; heap := heap st;
     processingQueue := processingQueue st; emitted := emitted st;
     progress_log := progress_log st |}.
Definition with_heap (h : list ProcessingJob) (st : state) :=
  {| fs := fs st; draws := draws st; videos := videos st; heap := h;
     processingQueue := processingQueue st; emitted := emitted st;
     progress_log := progress_log st |}.
Definition with_queue (q : gmap string nat) (st : state) :=
  {| fs := fs st; draws := draws st; videos := videos st; heap := heap st;
     processingQueue := q; emitted := emitted st;
     progress_log := progress_log st |}.
Definition with_emitted (l : list (string * event)) (st : state) :=
  {| fs := fs st; draws := draws st; videos := videos st; heap := heap st;
     processingQueue := processingQueue st; emitted := l;
     progress_log := progress_log st |}.
Definition with_progress_log (l : list Z) (st : state) :=
  {| fs := fs st; draws := draws st; videos := videos st; heap := heap st;
     processingQueue := processingQueue st; emitted := emitted st;
     progress_log := l |}.

(** Requests to the operating system and to the database driver that
    can be refused for reasons outside the model (permissions, I/O
    errors, a lost connection). *)
Inductive fs_op :=
| op_mkdir (dir : string)
| op_readdir (dir : string)
| op_unlink (p : path)
| op_rmdir (dir : string)
| op_stat (p : path)
| op_decode (p : path).

Inductive db_op :=
| op_findOne (videoId tenantId : string)
| op_findOneAndUpdate (videoId tenantId : string) (u : updates).

(** The collaborators.  [ffprobe] gives [metadata.format?.duration] or
    the probe error.  A refusal of the database stands for any error of
    the driver, a validation error included (a [NaN] duration).
    [screenshots video timestamps] gives the image files the decoder
    writes into the output folder and the error it ends with, if any.
    [Math_random n] is the value of the [n]-th call of [Math.random()]
    during scoring. *)
Record env := {
  os_refuses : fs_op -> option string;
  db_refuses : db_op -> option string;
  ffprobe : string -> result probed_duration;
  screenshots : string -> list string -> list (string * file) * option string;
  Math_sqrt : Q -> Q;
  Math_random : nat -> Q
}.

(** ** The monad of effectful code: state and exceptions *)

Definition M (A : Type) : Type := state -> result A * state.

Definition ret {A} (a : A) : M A := fun st => (Ok a, st).

Definition throw {A} (msg : string) : M A := fun st => (Err msg, st).

Definition bind {A B} (m : M A) (k : A -> M B) : M B :=
  fun st =>
    match m st with
    | (Ok a, st') => k a st'
    | (Err msg, st') => (Err msg, st')
    end.

(** [try { m } catch (error) { h error }]. *)
Definition try_catch {A} (m : M A) (h : string -> M A) : M A :=
  fun st =>
    match m st with
    | (Ok a, st') => (Ok a, st')
    | (Err msg, st') => h msg st'
    end.

Declare Scope js_scope.
Delimit Scope js_scope with js.
Notation "x <- m ;; k" := (bind m (fun x => k))
  (at level 100, m at next level, right associativity) : js_scope.
Notation "m ;;; k" := (bind m (fun _ => k))
  (at level 100, right associativity) : js_scope.
Local Open Scope js_scope.

(** [for (const x of xs) { body x }]. *)
Fixpoint for_of {A} (xs : list A) (body : A -> M unit) : M unit :=
  match xs with
  | [] => ret tt
  | x :: rest => body x ;;; for_of rest body
  end.

(** The scoring loop: [for (const p of ps) { scores.push(await f p) }]. *)
Fixpoint for_push {A B} (xs : list A) (f : A -> M B) : M (list B) :=
  match xs with
  | [] => ret []
  | x :: rest => y <- f x ;; ys <- for_push rest f ;; ret (y :: ys)
  end.

(** Lift a refusal of the environment to a throw. *)
Definition guard_refusal (r : option string) : M unit :=
  match r with
  | Some msg => throw msg
  | None => ret tt
  end.

(** ** File-system operations *)

Definition existsSync (dir : string) : M bool :=
  fun st => (Ok (bool_decide (is_Some (fs st !! dir))), st).

(** The ancestors of a directory path as [path.join] returns it: the
    non-empty prefixes that end before a separator.  The ancestor of
    [temp/frames_1] is [temp]; those of [/srv/app/temp] are [/srv] and
    [/srv/app]. *)
Fixpoint ancestors_from (seen rest : string) : list string :=
  match rest with
  | EmptyString => []
  | String c r =>
      let further := ancestors_from (seen ++ String c EmptyString) r in
      if Ascii.eqb c "/" then
        if String.eqb seen "" then further else seen :: further
      else further
  end.

Definition ancestors (dir : string) : list string := ancestors_from "" dir.

(** The directories of [dirs] that are missing, created empty. *)
Definition with_missing (dirs : list string)
    (f : gmap string (gmap string file)) : gmap string (gmap string file) :=
  f ∪ gset_to_gmap ∅ (list_to_set dirs).

(** [fs.mkdirSync(dir, { recursive: true })]: no error when the
    directory is already there; otherwise the directory is created
    together with the ancestors that are missing. *)
Definition mkdirSync (e : env) (dir : string) : M unit :=
  guard_refusal (os_refuses e (op_mkdir dir)) ;;;
  fun st =>
    match fs st !! dir with
    | Some _ => (Ok tt, st)
    | None => (Ok tt, with_fs (with_missing (ancestors dir ++ [dir]) (fs st)) st)
    end.

Definition readdir (e : env) (dir : string) : M (list string) :=
  guard_refusal (os_refuses e (op_readdir dir)) ;;;
  fun st =>
    match fs st !! dir with
    | Some d => (Ok (map fst (map_to_list d)), st)
    | None => (Err "ENOENT", st)
    end.

Definition lookup_file (st : state) (p : path) : option file :=
  d ← fs st !! p.1; d !! p.2.

Definition unlink (e : env) (p : path) : M unit :=
  guard_refusal (os_refuses e (op_unlink p)) ;;;
  fun st =>
    match fs st !! p.1 with
    | Some d =>
        match d !! p.2 with
        | Some _ => (Ok tt, with_fs (<[p.1 := delete p.2 d]> (fs st)) st)
        | None => (Err "ENOENT", st)
        end
    | None => (Err "ENOENT", st)
    end.

Definition rmdirSync (e : env) (dir : string) : M unit :=
  guard_refusal (os_refuses e (op_rmdir dir)) ;;;
  fun st =>
    match fs st !! dir with
    | Some d =>
        if bool_decide (d = ∅) then (Ok tt, with_fs (delete dir (fs st)) st)
        else (Err "ENOTEMPTY", st)
    | None => (Err "ENOENT", st)
    end.

(** [stat(framePath)], reduced to the [size] field that is read. *)
Definition stat (e : env) (p : path) : M Z :=
  guard_refusal (os_refuses e (op_stat p)) ;;;
  fun st =>
    match lookup_file st p with
    | Some f => (Ok (size f), st)
    | None => (Err "ENOENT", st)
    end.

(** [sharp(framePath).stats()], reduced to the [channels] field. *)
Definition sharp_stats (e : env) (p : path) : M (list channel) :=
  guard_refusal (os_refuses e (op_decode p)) ;;;
  fun st =>
    match lookup_file st p with
    | Some f => (image f, st)
    | None => (Err "Input file is missing", st)
    end.

(** ** Frame extractor *)

(** Re-throw with a prefixed message: [reject(new Error(`prefix${msg}`))]. *)
Definition rethrow {A} (prefix : string) (m : M A) : M A :=
  try_catch m (fun msg => throw (prefix ++ msg)).

Definition ffprobe_call (e : env) (videoPath : string)
  : M probed_duration :=
  fun st => (ffprobe e videoPath, st).

(** [ffmpeg(videoPath).screenshots({ timestamps, filename, folder })]:
    the decoder's files land in [folder] (replacing entries of the same
    name) whether or not it then reports an error. *)
Definition ffmpeg_screenshots (e : env) (videoPath : string)
    (ts : list string) (folder : string) : M unit :=
  fun st =>
    let (written, err) := screenshots e videoPath ts in
    match fs st !! folder with
    | Some d =>
        let st' := with_fs (<[folder := list_to_map written ∪ d]> (fs st)) st in
        match err with
        | Some msg => (Err msg, st')
        | None => (Ok tt, st')
        end
    | None => (Err (default "ENOENT" err), st)
    end.

(** [extractFrames(videoPath, outputDir, interval)]; [cap] is 30 in
    [services/sensitivityAnalysis.ts] and 10 in the file-size-only
    service. *)
Definition extractFrames (cap : Z) (e : env)
    (videoPath outputDir : string) (interval : Z) : M (list path) :=
  there <- existsSync outputDir ;;
  (if negb there then mkdirSync e outputDir else ret tt) ;;;
  probed <- rethrow "Failed to probe video: " (ffprobe_call e videoPath) ;;
  rethrow "Frame extraction failed: "
    (ffmpeg_screenshots e videoPath (timestamps cap probed interval)
       outputDir) ;;;
  files <- rethrow "Failed to read extracted frames: " (readdir e outputDir) ;;
  ret (map (path_join outputDir)
           (filter (fun f => Is_true (endsWith f ".jpg")) files)).

(** ** Frame scorers *)

(** The arithmetic of the pixel-statistics scorer, lines 107-160 of
    [services/sensitivityAnalysis.ts]. *)
Definition sizeRisk (fileSize : Z) : Q :=
  if fileSize <? 5000 then 0.1%Q
  else if fileSize <? 50000 then 0.3%Q
  else if fileSize <? 200000 then 0.6%Q
  else 0.8%Q.

Definition pixel_score (sqrt : Q -> Q) (fileSize : Z) (r g b : channel) : Q :=
  (let rMean := mean r / 255 in
  let gMean := mean g / 255 in
  let bMean := mean b / 255 in
  let rStd := stdev r / 255 in
  let gStd := stdev g / 255 in
  let bStd := stdev b / 255 in
  let brightness := (rMean + gMean + bMean) / 3 in
  let contrast := (rStd + gStd + bStd) / 3 in
  let colorVariance :=
    ((rMean - gMean) ^ 2 + (rMean - bMean) ^ 2 + (gMean - bMean) ^ 2) / 3 in
  let brightnessRisk := 1 - Qabs (brightness - 0.5) * 2 in
  let contrastRisk := Qmin 1 (contrast * 2) in
  let colorRisk := Qmin 1 (sqrt colorVariance * 2) in
  let score :=
    brightnessRisk * 0.3 + contrastRisk * 0.3 + colorRisk * 0.2 +
    sizeRisk fileSize * 0.2 in
  Qmax 0 (Qmin 1 score))%Q.

(** One call of [Math.random()]. *)
Definition random (e : env) : M Q :=
  fun st => (Ok (Math_random e (draws st)), with_draws (S (draws st)) st).

Module PixelStats.

(** The body of the [try] of [analyzeFrame], lines 97-160 of
    [services/sensitivityAnalysis.ts].  Destructuring [[r, g, b]] from
    fewer than three channels leaves a variable undefined, and reading
    its [mean] throws. *)
Definition analyzeFrame_try (e : env) (framePath : path) : M Q :=
  fileSize <- stat e framePath ;;
  channels <- sharp_stats e framePath ;;
  match channels with
  | r :: g :: b :: _ => ret (pixel_score (Math_sqrt e) fileSize r g b)
  | _ => throw "TypeError: cannot read properties of undefined"
  end.

(** [analyzeFrame], lines 96-164. *)
Definition analyzeFrame (e : env) (framePath : path) : M Q :=
  try_catch (analyzeFrame_try e framePath) (fun _ => ret 0%Q).

End PixelStats.

Module FileSize.

(** The body of the [try] of [analyzeFrame], lines 96-117 of the
    file-size-only service. *)
Definition analyzeFrame_try (e : env) (framePath : path) : M Q :=
  fileSize <- stat e framePath ;;
  let baseScore := if fileSize <? 1000 then 0.1%Q else 0.05%Q in
  r <- random e ;;
  let randomVariation := (r * 0.2)%Q in
  ret (Qmin 1 (baseScore + randomVariation))%Q.

(** [analyzeFrame], lines 95-122. *)
Definition analyzeFrame (e : env) (framePath : path) : M Q :=
  try_catch (analyzeFrame_try e framePath) (fun _ => ret 0%Q).

End FileSize.

(** ** Verdict aggregation *)

(** Lines 196-204: [Math.max(...scores)], the mean by [reduce], and the
    two threshold tests.  On an empty array JavaScript gives
    [-Infinity] and [NaN], and both comparisons are false.

    [Math.max] returns one of its arguments and a comparison is exact.
    The sum of [reduce] rounds after every addition, and the division
    rounds once more.  The scores of the array are doubles; a score
    that the exact formulas of the scorers give is read as the double
    nearest to it before it is added. *)
Definition maxScore (first : Q) (rest : list Q) : Q :=
  fold_left Qmax rest first.

Definition avgScore (scores : list Q) : Q :=
  double_div (fold_left double_add (map to_double scores) 0%Q)
             (inject_Z (Z.of_nat (length scores))).

Definition shouldFlag (max_threshold avg_threshold : Q) (scores : list Q)
  : bool :=
  match scores with
  | [] => false
  | s :: rest =>
      Qgtb (maxScore s rest) max_threshold ||
      Qgtb (avgScore scores) avg_threshold
  end.

(** What differs between the two services.  The thresholds are the
    doubles that the literals of the source denote. *)
Record service := {
  frame_cap : Z;
  analyzeFrame : env -> path -> M Q;
  max_threshold : Q;
  avg_threshold : Q
}.

Definition pixel_service : service :=
  {| frame_cap := 30;
     analyzeFrame := PixelStats.analyzeFrame;
     max_threshold := to_double 0.4%Q;
     avg_threshold := to_double 0.4%Q |}.

Definition filesize_service : service :=
  {| frame_cap := 10;
     analyzeFrame := FileSize.analyzeFrame;
     max_threshold := to_double 0.7%Q;
     avg_threshold := to_double 0.5%Q |}.

(** The two services of the sources. *)
Inductive variant := PixelStatistics | FileSizeOnly.

Definition service_of (v : variant) : service :=
  match v with
  | PixelStatistics => pixel_service
  | FileSizeOnly => filesize_service
  end.

Definition analyzeFrame_try_of (v : variant) : env -> path -> M Q :=
  match v with
  | PixelStatistics => PixelStats.analyzeFrame_try
  | FileSizeOnly => FileSize.analyzeFrame_try
  end.

(** The verdict as a function of the scores: the early return on an
    empty frame list followed by the threshold tests. *)
Definition aggregate (svc : service) (scores : list Q) : SensitivityVerdict :=
  if (length scores =? 0)%nat then safe
  else if shouldFlag (max_threshold svc) (avg_threshold svc) scores
       then flagged else safe.

(** The maximum and the mean of a score sequence as the design
    document means them: [m] is the maximum when it is one of the scores
    and no score exceeds it; the mean is the sum over the length. *)
Definition is_max (m : Q) (scores : list Q) : Prop :=
  Exists (fun x => x == m)%Q scores /\ Forall (fun x => x <= m)%Q scores.

Definition mean_of (scores : list Q) : Q :=
  (fold_right Qplus 0 scores / inject_Z (Z.of_nat (length scores)))%Q.

(** ** The analysis run *)

Definition swallow (m : M unit) : M unit :=
  try_catch m (fun _ => ret tt).

(** The [try] block of [analyzeVideoSensitivity], lines 180-222 (lines
    138-181 of the file-size-only service).  [tempDir] is the directory
    name built at the top of the function from the clock and a random
    suffix. *)
Definition analysis_try (svc : service) (e : env)
    (tempDir : string) (videoPath : string) : M SensitivityVerdict :=
  framePaths <- extractFrames (frame_cap svc) e videoPath tempDir 5 ;;
  if (length framePaths =? 0)%nat then ret safe
  else
    analysisScores <- for_push framePaths (analyzeFrame svc e) ;;
    let flag :=
      shouldFlag (max_threshold svc) (avg_threshold svc) analysisScores in
    for_of framePaths (fun framePath => swallow (unlink e framePath)) ;;;
    swallow (rmdirSync e tempDir) ;;;
    ret (if flag then flagged else safe).

(** The clean-up of the [catch] block, lines 225-235: one [try] around
    the whole sequence. *)
Definition cleanup_on_error (e : env) (tempDir : string) : M unit :=
  there <- existsSync tempDir ;;
  if there then
    files <- readdir e tempDir ;;
    for_of files (fun file => unlink e (path_join tempDir file)) ;;;
    rmdirSync e tempDir
  else ret tt.

(** The [catch] block, lines 223-239. *)
Definition analysis_catch (e : env) (tempDir : string)
  : M SensitivityVerdict :=
  swallow (cleanup_on_error e tempDir) ;;;
  ret safe.

(** [analyzeVideoSensitivity(videoPath)]. *)
Definition analyzeVideoSensitivity (svc : service) (e : env)
    (tempDir : string) (videoPath : string) : M SensitivityVerdict :=
  try_catch (analysis_try svc e tempDir videoPath)
            (fun _ => analysis_catch e tempDir).

(** ** Orchestrator and job registry *)

Definition Video_findOne (e : env) (videoId tenantId : string)
  : M (option Video) :=
  guard_refusal (db_refuses e (op_findOne videoId tenantId)) ;;;
  fun st =>
    match videos st !! videoId with
    | Some v =>
        if String.eqb (v_tenantId v) tenantId then (Ok (Some v), st)
        else (Ok None, st)
    | None => (Ok None, st)
    end.

(** [updateVideoStatus(videoId, tenantId, updates, undefined, undefined)]:
    without a role the query is [{ _id, tenantId }]; a document that
    does not match is left alone and [null] is returned. *)
Definition updateVideoStatus (e : env) (videoId tenantId : string)
    (u : updates) : M (option Video) :=
  guard_refusal (db_refuses e (op_findOneAndUpdate videoId tenantId u)) ;;;
  fun st =>
    match videos st !! videoId with
    | Some v =>
        if String.eqb (v_tenantId v) tenantId then
          let v' := apply_updates u v in
          (Ok (Some v'), with_videos (<[videoId := v']> (videos st)) st)
        else (Ok None, st)
    | None => (Ok None, st)
    end.

Definition no_updates : updates :=
  {| u_status := None; u_safetyStatus := None; u_duration := None |}.

(** [getFilePath]: [path.join(UPLOAD_DIR, relativePath)]. *)
Definition getFilePath (relativePath : string) : string :=
  "uploads/" ++ relativePath.

(** [getVideoMetadata]: a failed probe resolves to duration 0;
    otherwise [Math.round(metadata.format?.duration || 0)], which is
    [NaN] for a duration that is a text. *)
Definition getVideoMetadata (e : env) (videoPath : string)
  : M whole_number :=
  fun st =>
    match ffprobe e videoPath with
    | Err _ => (Ok (whole 0), st)
    | Ok probed => (Ok (Math_round_of (duration_or_zero probed)), st)
    end.

(** Job objects. *)
Definition new_job (j : ProcessingJob) : M nat :=
  fun st =>
    (Ok (length (heap st)),
     with_progress_log (progress_log st ++ [j_progress j])
       (with_heap (heap st ++ [j]) st)).

Definition queue_set (videoId : string) (job : nat) : M unit :=
  fun st => (Ok tt, with_queue (<[videoId := job]> (processingQueue st)) st).

Definition queue_delete (videoId : string) : M unit :=
  fun st => (Ok tt, with_queue (delete videoId (processingQueue st)) st).

Definition set_status (job : nat) (s : JobStatus) : M unit :=
  fun st =>
    (Ok tt,
     with_heap
       (alter (fun j => {| j_videoId := j_videoId j; j_tenantId := j_tenantId j;
                           j_status := s; j_progress := j_progress j;
                           j_safetyStatus := j_safetyStatus j |})
              job (heap st)) st).

Definition set_progress (job : nat) (p : Z) : M unit :=
  fun st =>
    (Ok tt,
     with_progress_log (progress_log st ++ [p])
       (with_heap
          (alter (fun j => {| j_videoId := j_videoId j;
                              j_tenantId := j_tenantId j;
                              j_status := j_status j; j_progress := p;
                              j_safetyStatus := j_safetyStatus j |})
                 job (heap st)) st)).

Definition set_safetyStatus (job : nat) (v : SensitivityVerdict) : M unit :=
  fun st =>
    (Ok tt,
     with_heap
       (alter (fun j => {| j_videoId := j_videoId j; j_tenantId := j_tenantId j;
                           j_status := j_status j; j_progress := j_progress j;
                           j_safetyStatus := Some v |})
              job (heap st)) st).

(** [if (io) { io.to(`tenant:${tenantId}`).emit(...) }]. *)
Definition emit (io : bool) (tenantId : string) (ev : event) : M unit :=
  fun st =>
    if io then
      (Ok tt, with_emitted (emitted st ++ [("tenant:" ++ tenantId, ev)]) st)
    else (Ok tt, st).

(** The [try] block of [processVideo], lines 286-395.  [svc] is the
    analysis service the module imports, [tempDir] the directory name
    that service builds for this run. *)
Definition processVideo_try (svc : service) (e : env) (tempDir : string)
    (videoId tenantId : string) (io : bool) : M unit :=
  found <- Video_findOne e videoId tenantId ;;
  match found with
  | None => throw "Video not found"
  | Some video =>
      job <- new_job {| j_videoId := videoId; j_tenantId := tenantId;
                        j_status := queued; j_progress := 0;
                        j_safetyStatus := None |} ;;
      queue_set videoId job ;;;
      updateVideoStatus e videoId tenantId
        {| u_status := Some processing; u_safetyStatus := None;
           u_duration := None |} ;;;
      set_status job job_processing ;;;
      set_progress job 10 ;;;
      emit io tenantId (processing_start videoId 10) ;;;
      let filePath := getFilePath (v_storagePath video) in
      duration <- getVideoMetadata e filePath ;;
      set_progress job 30 ;;;
      emit io tenantId
        (processing_progress videoId 30 "Extracting video metadata...") ;;;
      updateVideoStatus e videoId tenantId
        {| u_status := None; u_safetyStatus := None;
           u_duration := Some duration |} ;;;
      emit io tenantId
        (processing_progress videoId 50
           "Analyzing content sensitivity...") ;;;
      safetyStatus <- analyzeVideoSensitivity svc e tempDir filePath ;;
      set_progress job 80 ;;;
      set_safetyStatus job safetyStatus ;;;
      emit io tenantId
        (processing_progress videoId 80 "Finalizing results...") ;;;
      updateVideoStatus e videoId tenantId
        {| u_status := Some processed;
           u_safetyStatus := Some safetyStatus;
           u_duration := None |} ;;;
      set_status job completed ;;;
      set_progress job 100 ;;;
      emit io tenantId
        (processing_completed videoId 100 safetyStatus duration) ;;;
      queue_delete videoId
  end.

(** The [catch] block of [processVideo], lines 396-421. *)
Definition processVideo_catch (e : env) (videoId tenantId : string)
    (io : bool) (error : string) : M unit :=
  swallow
    (updateVideoStatus e videoId tenantId
       {| u_status := Some failed; u_safetyStatus := None;
          u_duration := None |} ;;; ret tt) ;;;
  emit io tenantId
    (processing_failed videoId
       (if String.eqb error "" then "Processing failed" else error)) ;;;
  queue_delete videoId.

(** [processVideo(videoId, tenantId, io)], lines 281-422. *)
Definition processVideo (svc : service) (e : env) (tempDir : string)
    (videoId tenantId : string) (io : bool) : M unit :=
  try_catch (processVideo_try svc e tempDir videoId tenantId io)
            (processVideo_catch e videoId tenantId io).

(** [getProcessingStatus(videoId)]: the job object the queue refers to,
    or [null]. *)
Definition getProcessingStatus (st : state) (videoId : string)
  : option ProcessingJob :=
  job ← processingQueue st !! videoId; heap st !! job.

(** ** Vocabulary of the statements *)

(** Extraction generates exactly one timestamp, and it denotes offset
    [t]. *)
Definition one_timestamp_at (cap : Z) (probed : probed_duration) (I : Z)
    (t : Z)
  : Prop :=
  exists ts, timestamps cap probed I = [ts] /\
             seconds_of_timestamp ts = Some t.

(** The environment with another source of random numbers. *)
Definition with_random (r : nat -> Q) (e : env) : env :=
  {| os_refuses := os_refuses e; db_refuses := db_refuses e;
     ffprobe := ffprobe e; screenshots := screenshots e;
     Math_sqrt := Math_sqrt e; Math_random := r |}.

(** [Math.random()] returns a number in [[0, 1)]. *)
Definition unit_interval (r : nat -> Q) : Prop :=
  forall n, (0 <= r n /\ r n < 1)%Q.

Definition random_in_range (e : env) : Prop :=
  unit_interval (Math_random e).

(** Frame scoring without randomness: the score of a frame does not
    depend on what [Math.random()] returns. *)
Definition scoring_without_randomness (v : variant) : Prop :=
  forall e r1 r2 p st,
    unit_interval r1 -> unit_interval r2 ->
    fst (analyzeFrame (service_of v) (with_random r1 e) p st) =
    fst (analyzeFrame (service_of v) (with_random r2 e) p st).

Definition db_cooperates (e : env) : Prop :=
  forall op, db_refuses e op = None.

(** The operating system refuses none of the clean-up requests for the
    directory [tempDir]: listing it, unlinking a file of it, removing
    it. *)
Definition cleanup_cooperates (e : env) (tempDir : string) : Prop :=
  os_refuses e (op_readdir tempDir) = None /\
  (forall file, os_refuses e (op_unlink (path_join tempDir file)) = None) /\
  os_refuses e (op_rmdir tempDir) = None.

(** The operating system answers the requests that bear on the verdict
    in the same way in the two directories: creating and listing the
    directory, reading the size and decoding the pixels of a file of
    it. *)
Definition same_answers (e : env) (dir1 dir2 : string) : Prop :=
  os_refuses e (op_mkdir dir1) = os_refuses e (op_mkdir dir2) /\
  os_refuses e (op_readdir dir1) = os_refuses e (op_readdir dir2) /\
  (forall f, os_refuses e (op_stat (path_join dir1 f))
             = os_refuses e (op_stat (path_join dir2 f))) /\
  (forall f, os_refuses e (op_decode (path_join dir1 f))
             = os_refuses e (op_decode (path_join dir2 f))).

(** The environment with other answers to the clean-up requests
    ([unlink] and [rmdir]). *)
Definition with_cleanup_refusals (f : fs_op -> option string) (e : env)
  : env :=
  {| os_refuses := fun op =>
       match op with
       | op_unlink _ | op_rmdir _ => f op
       | _ => os_refuses e op
       end;
     db_refuses := db_refuses e; ffprobe := ffprobe e;
     screenshots := screenshots e; Math_sqrt := Math_sqrt e;
     Math_random := Math_random e |}.

(** Two states that differ at most in the file system and in the number
    of random draws. *)
Definition same_registry (st st' : state) : Prop :=
  videos st' = videos st /\ heap st' = heap st /\
  processingQueue st' = processingQueue st /\
  emitted st' = emitted st /\ progress_log st' = progress_log st.

(** An operation whose effects stay within the file system and the
    random source. *)
Definition files_only {A} (m : M A) : Prop :=
  forall st, same_registry st (snd (m st)).


(** What the [try] block of the orchestrator leaves behind: the values
    written to the progress field of the job form an initial segment of
    0, 10, 30, 80, 100, and the job is out of the queue when the block
    completes. *)
Definition progress_post (st : state) (videoId : string)
    (rs : result unit * state) : Prop :=
  exists l,
    progress_log (snd rs) = (progress_log st ++ l)%list /\
    l `prefix_of` [0; 10; 30; 80; 100] /\
    StronglySorted Z.le l /\
    (fst rs = Ok tt -> processingQueue (snd rs) !! videoId = None).


(** ** Sample worlds

    Concrete collaborators and states on which the model is run. *)

Definition sample_frame (bytes : Z) : file :=
  {| size := bytes;
     image := Ok [ {| mean := 128; stdev := 60 |};
                   {| mean := 100; stdev := 50 |};
                   {| mean := 30; stdev := 40 |} ] |}.

(** A decoder that writes one 60 kB frame per requested timestamp. *)
Definition one_frame_per_timestamp (video : string) (ts : list string)
  : list (string * file) * option string :=
  (map (fun t => ("frame_" ++ t ++ ".jpg", sample_frame 60000)) ts, None).

(** A decoder that ends normally without writing a frame. *)
Definition no_frame_written (video : string) (ts : list string)
  : list (string * file) * option string :=
  ([], None).

(** A decoder that writes two frames and then reports an error. *)
Definition two_frames_then_error (video : string) (ts : list string)
  : list (string * file) * option string :=
  ([("frame_a.jpg", sample_frame 60000); ("frame_b.jpg", sample_frame 60000)],
   Some "ffmpeg exited with code 1").

(** In the sample worlds the square root is the identity; no statement
    below depends on its value. *)
Definition sample_env (probe : string -> result probed_duration)
    (shots : string -> list string -> list (string * file) * option string)
    (rnd : nat -> Q) : env :=
  {| os_refuses := fun _ => None;
     db_refuses := fun _ => None;
     ffprobe := probe;
     screenshots := shots;
     Math_sqrt := fun q => q;
     Math_random := rnd |}.

(** A 12-second video that decodes normally. *)
Definition env_ok : env :=
  sample_env (fun _ => Ok (duration_number 12%Q)) one_frame_per_timestamp
             (fun _ => 0.5%Q).


(** A video without a duration field for which the decoder writes
    nothing. *)
Definition env_no_frames : env :=
  sample_env (fun _ => Ok duration_absent) no_frame_written
             (fun _ => 0.5%Q).

(** The decoder fails after two frames, and the first of them cannot be
    deleted. *)
Definition env_locked_frame : env :=
  {| os_refuses := fun op =>
       match op with
       | op_unlink p =>
           if String.eqb (snd p) "frame_a.jpg" then Some "EPERM" else None
       | _ => None
       end;
     db_refuses := fun _ => None;
     ffprobe := fun _ => Ok (duration_number 12%Q);
     screenshots := two_frames_then_error;
     Math_sqrt := fun q => q;
     Math_random := fun _ => 0.5%Q |}.

(** Frames at the threshold: channel means 102, standard deviations
    17, 60 kB; one per requested timestamp, for a video of [D]
    seconds. *)
Definition threshold_frame : file :=
  {| size := 60000;
     image := Ok [ {| mean := 102; stdev := 17 |};
                   {| mean := 102; stdev := 17 |};
                   {| mean := 102; stdev := 17 |} ] |}.

Definition threshold_frame_per_timestamp (video : string) (ts : list string)
  : list (string * file) * option string :=
  (map (fun t => ("frame_" ++ t ++ ".jpg", threshold_frame)) ts, None).

Definition env_threshold (D : Q) : env :=
  sample_env (fun _ => Ok (duration_number D)) threshold_frame_per_timestamp
             (fun _ => 0.5%Q).

Definition sample_video : Video :=
  {| v_tenantId := "t1"; v_storagePath := "t1/clip.mp4";
     v_status := uploaded; v_safetyStatus := unknown; v_duration := None |}.

(** One uploaded video, an empty file system, no job. *)
Definition sample_state : state :=
  {| fs := ∅; draws := 0; videos := {[ "v1" := sample_video ]};
     heap := []; processingQueue := ∅; emitted := []; progress_log := [] |}.

Definition sample_tempDir : string := "temp/frames_1700000000000_k3x9q".

(** The same with one extracted frame on disk. *)
Definition sample_state_with_frame : state :=
  with_fs {[ sample_tempDir := {[ "frame_00:00:00.jpg" := sample_frame 60000 ]} ]}
          sample_state.

(** ** Vocabulary of the further statements *)

(** An operation that relates every state to the state it leaves. *)
Definition preserves (R : state -> state -> Prop) {A} (m : M A) : Prop :=
  forall st, R st (snd (m st)).

(** Every directory that does not satisfy [P] is the same in both
    states, or it is one of [A], missing in the first state and empty in
    the second. *)
Definition fs_outside (P : string -> Prop) (A : list string)
    (st st' : state) : Prop :=
  forall d, ~ P d ->
    fs st' !! d = fs st !! d \/
    (d ∈ A /\ fs st !! d = None /\ fs st' !! d = Some ∅).

(** Every video record other than the one identified by [videoId] in
    tenant [tenantId] is the same in both states. *)
Definition others_untouched (videoId tenantId : string) (st st' : state)
  : Prop :=
  forall id v, videos st !! id = Some v ->
    id <> videoId \/ v_tenantId v <> tenantId ->
    videos st' !! id = Some v.

(** No file of the first state is missing in the second. *)
Definition no_file_lost (st st' : state) : Prop :=
  forall p, is_Some (lookup_file st p) -> is_Some (lookup_file st' p).

(** The video an event is about. *)
Definition event_videoId (ev : event) : string :=
  match ev with
  | processing_start videoId _ => videoId
  | processing_progress videoId _ _ => videoId
  | processing_completed videoId _ _ _ => videoId
  | processing_failed videoId _ => videoId
  end.

(** The events that end a run. *)
Definition is_terminal (ev : event) : bool :=
  match ev with
  | processing_completed _ _ _ _ | processing_failed _ _ => true
  | _ => false
  end.

(** The file system after [mkdirSync(dir, { recursive: true })] was
    called for a directory that may be there already. *)
Definition fs_after_mkdir (dir : string) (f : gmap string (gmap string file))
  : gmap string (gmap string file) :=
  match f !! dir with
  | Some _ => f
  | None => with_missing (ancestors dir ++ [dir]) f
  end.

(** The directory listing of the output folder after the decoder wrote
    [written] over the previous content [before]. *)
Definition folder_after (written : list (string * file))
    (before : option (gmap string file)) : gmap string file :=
  list_to_map written ∪ default ∅ before.

(** The [.jpg] entries of a directory, as paths below [dir]. *)
Definition jpg_paths (dir : string) (d : gmap string file) : list path :=
  map (path_join dir)
      (filter (fun f => Is_true (endsWith f ".jpg")) (map fst (map_to_list d))).

(** A temporary directory that holds a frame of an earlier run. *)
Definition sample_state_stale : state :=
  with_fs {[ sample_tempDir := {[ "old_frame.jpg" := sample_frame 1000 ]} ]}
          sample_state.

(** A decoder that writes one frame and a log file. *)
Definition frame_and_log (video : string) (ts : list string)
  : list (string * file) * option string :=
  ([("frame_1.jpg", sample_frame 60000);
    ("ffmpeg.log", {| size := 10; image := Err "not an image" |})], None).

Definition env_frame_and_log : env :=
  sample_env (fun _ => Ok (duration_number 12%Q)) frame_and_log (fun _ => 0.5%Q).

(** A video of another tenant. *)
Definition sample_state_two_tenants : state :=
  with_videos (<[ "v2" := {| v_tenantId := "t2"; v_storagePath := "t2/b.mp4";
                            v_status := uploaded; v_safetyStatus := unknown;
                            v_duration := None |} ]> (videos sample_state))
              sample_state.

(** A database that refuses the update that stores the duration. *)
Definition env_db_down_at_duration : env :=
  {| os_refuses := fun _ => None;
     db_refuses := fun op =>
       match op with
       | op_findOneAndUpdate _ _ u =>
           match u_duration u with
           | Some _ => Some "connection lost"
           | None => None
           end
       | op_findOne _ _ => None
       end;
     ffprobe := fun _ => Ok (duration_number 12%Q);
     screenshots := one_frame_per_timestamp;
     Math_sqrt := fun q => q;
     Math_random := fun _ => 0.5%Q |}.

(** A file of the first state is in the second state, unchanged. *)
Definition file_kept (p : path) (x : file) (st st' : state) : Prop :=
  lookup_file st p = Some x -> lookup_file st' p = Some x.


(** The state that a first analysis of the 15-second threshold video
    leaves, in the directory [temp/frames_1]. *)
Definition sample_state_after_run : state :=
  snd (analyzeVideoSensitivity pixel_service
         (with_random (fun _ => 0%Q) (env_threshold 15)) "temp/frames_1"
         "uploads/t1/clip.mp4" sample_state).

(** A registry that holds the job of another video, half-way through. *)
Definition sample_state_busy : state :=
  with_queue {[ "v2" := 0%nat ]}
    (with_heap [ {| j_videoId := "v2"; j_tenantId := "t2";
                    j_status := job_processing; j_progress := 30;
                    j_safetyStatus := None |} ]
               sample_state).

(** * Properties *)

(** ** Decimal rendering and the [HH:MM:SS] round trip *)

Lemma digits_colon_free (d : Decimal.uint) :
  colon_free (NilEmpty.string_of_uint d) = true.
Proof. induction d; simpl; auto. Qed.

Lemma String_of_nonneg (n : Z) :
  0 <= n ->
  exists d, d <> Decimal.Nil /\ Z.of_uint d = n /\
            String_of n = NilEmpty.string_of_uint d.
Proof.
  intros Hn. unfold String_of.
  destruct n as [|p|p]; [| |lia].
  - exists (Decimal.D0 Decimal.Nil). repeat split; discriminate.
  - exists (Pos.to_uint p). split; [apply DecimalPos.Unsigned.to_uint_nonnil|].
    split.
    + unfold Z.of_uint. rewrite DecimalPos.Unsigned.of_to. reflexivity.
    + simpl. pose proof (DecimalPos.Unsigned.to_uint_nonnil p) as Hnil.
      destruct (Pos.to_uint p); [congruence|reflexivity..].
Qed.

Lemma padStart_digits (n : Z) :
  0 <= n ->
  exists d, d <> Decimal.Nil /\ Z.of_uint d = n /\
            padStart 2 "0" (String_of n) = NilEmpty.string_of_uint d.
Proof.
  intros Hn. destruct (String_of_nonneg n Hn) as (d & Hd & Hv & Hs).
  unfold padStart. rewrite Hs.
  destruct (2 - String.length (NilEmpty.string_of_uint d))%nat
    as [|[|k]] eqn:Hk.
  - exists d. auto.
  - exists (Decimal.D0 d). repeat split; [discriminate|exact Hv].
  - assert (k = 0%nat) as -> by lia.
    exists (Decimal.D0 (Decimal.D0 d)). repeat split; [discriminate|exact Hv].
Qed.

Lemma parse_padStart (n : Z) :
  0 <= n -> parse_int (padStart 2 "0" (String_of n)) = Some n.
Proof.
  intros Hn. destruct (padStart_digits n Hn) as (d & Hd & Hv & ->).
  unfold parse_int.
  change (NilEmpty.string_of_uint d)
    with (NilEmpty.string_of_int (Decimal.Pos d)).
  replace (NilEmpty.string_of_int (Decimal.Pos d))
    with (NilZero.string_of_int (Decimal.Pos d))
    by (simpl; destruct d; [congruence|reflexivity..]).
  rewrite NilZero.isi by (congruence || discriminate).
  simpl. f_equal. exact Hv.
Qed.

Lemma padStart_colon_free (n : Z) :
  0 <= n -> colon_free (padStart 2 "0" (String_of n)) = true.
Proof.
  intros Hn. destruct (padStart_digits n Hn) as (d & _ & _ & ->).
  apply digits_colon_free.
Qed.

Lemma colon_fields_nonempty (s : string) : colon_fields s <> [].
Proof.
  induction s as [|c r IH]; simpl; [discriminate|].
  destruct (Ascii.eqb c ":"); [discriminate|].
  destruct (colon_fields r); [contradiction|discriminate].
Qed.

Lemma colon_fields_last (a : string) :
  colon_free a = true -> colon_fields a = [a].
Proof.
  induction a as [|c r IH]; simpl; [reflexivity|].
  intros [Hc Hr]%andb_prop. apply negb_true_iff in Hc.
  rewrite Hc, (IH Hr). reflexivity.
Qed.

Lemma colon_fields_cons (a r : string) :
  colon_free a = true ->
  colon_fields (a ++ String ":" r) = a :: colon_fields r.
Proof.
  induction a as [|c a IH]; simpl; [reflexivity|].
  intros [Hc Ha]%andb_prop. apply negb_true_iff in Hc.
  rewrite Hc, (IH Ha). reflexivity.
Qed.

(** Every generated timestamp denotes the offset it was built from. *)
Lemma seconds_of_format (s : Z) :
  0 <= s -> seconds_of_timestamp (format_timestamp s) = Some s.
Proof.
  intros Hs. unfold seconds_of_timestamp, format_timestamp.
  unfold floor_div, js_rem.
  rewrite !Z.rem_mod_nonneg by lia.
  assert (0 <= s / 3600) by (apply Z.div_pos; lia).
  assert (0 <= (s mod 3600) / 60)
    by (apply Z.div_pos; [apply Z.mod_pos_bound|]; lia).
  assert (0 <= s mod 60) by (apply Z.mod_pos_bound; lia).
  change (?a ++ ":" ++ ?b ++ ":" ++ ?c)
    with (a ++ String ":" (b ++ String ":" c)).
  rewrite !colon_fields_cons, colon_fields_last
    by (apply padStart_colon_free; assumption).
  rewrite !parse_padStart by assumption.
  f_equal. Z.to_euclidean_division_equations. lia.
Qed.

(** ** Timestamp generation *)

Lemma duration_or_zero_some (D : Q) :
  exists d, duration_or_zero (duration_number D) = Some d /\ (d == D)%Q.
Proof.
  unfold duration_or_zero. eexists. split; [reflexivity|].
  destruct (Qeq_bool D 0) eqn:E; [|reflexivity].
  apply Qeq_bool_iff in E. symmetry. exact E.
Qed.

(** A duration that is a text: the frame count is [NaN], the loop does
    not run, and the fallback of lines 57-60 gives the one timestamp. *)
Lemma timestamps_text (cap I : Z) :
  timestamps cap duration_text I = ["00:00:01"].
Proof. reflexivity. Qed.

(** With a numeric duration and a non-zero interval the loop runs
    [clamp (floor (D/I)) 1 cap] times and the fallback is not taken. *)
Lemma timestamps_loop (cap : Z) (probed : probed_duration) (I : Z) (d : Q) :
  I <> 0 -> duration_or_zero probed = Some d ->
  timestamps cap probed I =
  List.map (fun i => format_timestamp (i * I))
    (List.map Z.of_nat
       (List.seq 0
          (Z.to_nat (clamp (Qfloor (d / inject_Z I)) 1 cap)))).
Proof.
  intros HI Hd. unfold timestamps, numFrames, clamp. rewrite Hd.
  apply Z.eqb_neq in HI. rewrite HI. simpl loop_indices.
  rewrite !List.length_map, List.length_seq.
  destruct (Z.to_nat _) eqn:E; [lia|reflexivity].
Qed.

Lemma timestamps_lookup (cap : Z) (probed : probed_duration) (I : Z) (d : Q)
    (k : nat) :
  I <> 0 -> duration_or_zero probed = Some d ->
  Z.of_nat k < clamp (Qfloor (d / inject_Z I)) 1 cap ->
  timestamps cap probed I !! k = Some (format_timestamp (Z.of_nat k * I)).
Proof.
  intros HI Hd Hk. rewrite (timestamps_loop cap probed I d) by assumption.
  rewrite !list_lookup_fmap.
  rewrite lookup_seq_lt by lia. reflexivity.
Qed.

(** C3: for every probed duration and interval [I > 0], [extractFrames]
    generates exactly [clamp (floor (D / I)) 1 CAP] timestamps, the
    [k]-th of which denotes offset [k * I]; a 50-second video with
    interval 5 and bound 10 gives the ten timestamps 0, 5, ..., 45. *)
Theorem C3_timestamp_count_and_offsets (cap : Z) (D : Q) (I : Z) :
  (0 <= D)%Q -> 0 < I ->
  let n := clamp (Qfloor (D / inject_Z I)) 1 cap in
  Z.of_nat (length (timestamps cap (duration_number D) I)) = n /\
  (forall k : nat, Z.of_nat k < n ->
     exists ts, timestamps cap (duration_number D) I !! k = Some ts /\
                seconds_of_timestamp ts = Some (Z.of_nat k * I)) /\
  timestamps 10 (duration_number 50%Q) 5 =
    ["00:00:00"; "00:00:05"; "00:00:10"; "00:00:15"; "00:00:20";
     "00:00:25"; "00:00:30"; "00:00:35"; "00:00:40"; "00:00:45"].
Proof.
  intros _ HI n.
  destruct (duration_or_zero_some D) as (d & Hd & Ed).
  assert (Hn : clamp (Qfloor (d / inject_Z I)) 1 cap = n).
  { unfold n. now rewrite Ed. }
  assert (1 <= n) by (unfold n, clamp; lia).
  split; [|split].
  - rewrite (timestamps_loop cap _ I d) by (lia || exact Hd).
    rewrite !List.length_map, List.length_seq, Hn. lia.
  - intros k Hk. eexists. split.
    + apply (timestamps_lookup cap _ I d); [lia|exact Hd|].
      rewrite Hn. exact Hk.
    + apply seconds_of_format. lia.
  - vm_compute. reflexivity.
Qed.

Lemma C3_witness :
  (0 <= 50)%Q /\ 0 < 5 /\
  Z.of_nat (length (timestamps 30 (duration_number 50%Q) 5)) = 10 /\
  (exists ts, timestamps 30 (duration_number 50%Q) 5 !! 9%nat = Some ts /\
              seconds_of_timestamp ts = Some 45).
Proof.
  assert (H0 : (0 <= 50)%Q) by (vm_compute; discriminate).
  assert (H1 : 0 < 5) by lia.
  destruct (C3_timestamp_count_and_offsets 30 50%Q 5 H0 H1) as (Hlen & Hk & _).
  split; [exact H0|]. split; [exact H1|]. split; [exact Hlen|].
  apply (Hk 9%nat). vm_compute. reflexivity.
Defined.

(** For a duration that is the number 0 and the interval of every call
    site the single timestamp is not at 1 second. *)
Lemma C2_counterexample :
  timestamps 30 (duration_number 0) 5 = ["00:00:00"] /\
  ~ one_timestamp_at 30 (duration_number 0) 5 1.
Proof.
  split; [vm_compute; reflexivity|].
  intros (ts & Hts & Hsec). vm_compute in Hts.
  injection Hts as <-. vm_compute in Hsec. discriminate.
Qed.

(** C2 (amended): for a duration that is the number 0, or absent, and a
    non-zero interval, [extractFrames] generates exactly one timestamp,
    and it is at offset 0 ("00:00:00"), not at 1 second; for a duration
    that the probe reports as text (an unknown duration), it generates
    exactly one timestamp, at 1 second ("00:00:01"), whatever the
    interval. *)
Theorem C2_zero_duration_single_timestamp_at_zero
    (cap : Z) (probed : probed_duration) (I : Z) :
  (I <> 0 ->
   forall d, duration_or_zero probed = Some d -> (d == 0)%Q ->
     timestamps cap probed I = ["00:00:00"] /\
     one_timestamp_at cap probed I 0) /\
  (probed = duration_text ->
     timestamps cap probed I = ["00:00:01"] /\
     one_timestamp_at cap probed I 1).
Proof.
  split.
  - intros HI d Hd HD.
    assert (E : timestamps cap probed I = ["00:00:00"]).
    { rewrite (timestamps_loop cap probed I d) by assumption.
      assert (Hq : (d / inject_Z I == 0)%Q).
      { rewrite HD. unfold Qdiv. apply Qmult_0_l. }
      rewrite Hq. change (Qfloor 0) with 0.
      replace (clamp 0 1 cap) with 1 by (unfold clamp; lia).
      reflexivity. }
    split; [exact E|].
    exists "00:00:00". split; [exact E|]. vm_compute. reflexivity.
  - intros ->. split; [reflexivity|].
    exists "00:00:01". split; [reflexivity|]. vm_compute. reflexivity.
Qed.

Lemma C2_witness :
  5 <> 0 /\
  timestamps 30 (duration_number 0) 5 = ["00:00:00"] /\
  timestamps 30 duration_absent 5 = ["00:00:00"] /\
  timestamps 30 duration_text 5 = ["00:00:01"].
Proof.
  assert (H1 : 5 <> 0) by lia.
  split; [exact H1|].
  split; [|split].
  - exact (proj1 (proj1 (C2_zero_duration_single_timestamp_at_zero
                           30 (duration_number 0) 5)
                    H1 0%Q eq_refl (Qeq_refl 0))).
  - exact (proj1 (proj1 (C2_zero_duration_single_timestamp_at_zero
                           30 duration_absent 5)
                    H1 0%Q eq_refl (Qeq_refl 0))).
  - exact (proj1 (proj2 (C2_zero_duration_single_timestamp_at_zero
                           30 duration_text 5) eq_refl)).
Defined.

(** The 1-second fallback is taken exactly when the frame count is
    [NaN]: for a duration that is a text, and for a zero duration
    divided by a zero interval. *)
Lemma fallback_only_for_nan (cap : Z) (probed : probed_duration) (I : Z) :
  timestamps cap probed I = ["00:00:01"] <->
  probed = duration_text \/
  (I = 0 /\ exists d, duration_or_zero probed = Some d /\ (d == 0)%Q).
Proof.
  split.
  - intros E.
    destruct (duration_or_zero probed) as [d|] eqn:Hd;
      [|left; destruct probed; (discriminate || reflexivity)].
    right. destruct (Z.eq_dec I 0) as [->|HI].
    + split; [reflexivity|]. exists d. split; [reflexivity|].
      unfold timestamps, numFrames in E. rewrite Hd in E. simpl in E.
      destruct (Qeq_bool d 0) eqn:Hz.
      * now apply Qeq_bool_iff.
      * exfalso. destruct (Qle_bool 0 d).
        -- simpl in E. destruct (Z.to_nat (Z.max 1 cap)) eqn:En; [lia|].
           simpl in E. vm_compute in E. discriminate.
        -- vm_compute in E. discriminate.
    + exfalso. rewrite (timestamps_loop cap probed I d) in E by assumption.
      destruct (Z.to_nat _) eqn:En; [unfold clamp in En; lia|].
      simpl in E. vm_compute in E. discriminate.
  - intros [->|[-> (d & Hd & HD)]]; [reflexivity|].
    unfold timestamps, numFrames. rewrite Hd. simpl.
    apply Qeq_bool_iff in HD. rewrite HD. reflexivity.
Qed.

(** ** Binary64 rounding *)

Lemma round_half_even_bounds (y : Q) :
  Qfloor y <= round_half_even y <= Qfloor y + 1.
Proof.
  unfold round_half_even.
  destruct (y - inject_Z (Qfloor y) ?= 1 # 2)%Q; [destruct (Z.even _)| |]; lia.
Qed.

Lemma round_half_even_mono (y y' : Q) :
  (y <= y')%Q -> round_half_even y <= round_half_even y'.
Proof.
  intros Hle. pose proof (Qfloor_resp_le _ _ Hle) as Hf.
  destruct (Z.eq_dec (Qfloor y) (Qfloor y')) as [E|Hne].
  - unfold round_half_even. rewrite <- E.
    destruct (Qcompare_spec (y - inject_Z (Qfloor y)) (1 # 2)) as [H|H|H];
    destruct (Qcompare_spec (y' - inject_Z (Qfloor y)) (1 # 2)) as [H'|H'|H'];
      try (destruct (Z.even _)); try lia; exfalso; lra.
  - pose proof (round_half_even_bounds y). pose proof (round_half_even_bounds y').
    lia.
Qed.

Lemma round_half_even_comp (y y' : Q) :
  (y == y')%Q -> round_half_even y = round_half_even y'.
Proof.
  intros E. apply Z.le_antisymm; apply round_half_even_mono; rewrite E;
    apply Qle_refl.
Qed.

Lemma round_half_even_Z (z : Z) : round_half_even (inject_Z z) = z.
Proof.
  unfold round_half_even. rewrite Qfloor_Z.
  destruct (Qcompare_spec (inject_Z z - inject_Z z) (1 # 2)) as [H|H|H];
    [exfalso; lra|reflexivity|exfalso; lra].
Qed.

Lemma pow2_pos (k : Z) : 0 <= k -> (0 < inject_Z (2 ^ k))%Q.
Proof.
  intros Hk. change 0%Q with (inject_Z 0). rewrite <- Zlt_Qlt.
  apply Z.pow_pos_nonneg; lia.
Qed.

Lemma ulp_exponent_nonneg (X : Q) : 0 <= ulp_exponent X.
Proof. unfold ulp_exponent. lia. Qed.

Lemma ulp_exponent_mono (X Y : Q) :
  (X <= Y)%Q -> ulp_exponent X <= ulp_exponent Y.
Proof.
  intros Hle. unfold ulp_exponent.
  pose proof (Z.log2_le_mono _ _ (Qfloor_resp_le _ _ Hle)). lia.
Qed.

Lemma below_next_binade (X : Q) :
  (X <= inject_Z (2 ^ (ulp_exponent X + 53)))%Q.
Proof.
  pose proof (Qlt_floor X) as HX.
  assert (Hn : Qfloor X + 1 <= 2 ^ (ulp_exponent X + 53)).
  { unfold ulp_exponent.
    destruct (Z.le_gt_cases (Qfloor X) 0) as [H0|H0].
    - assert (1 <= 2 ^ (Z.max 0 (Z.log2 (Qfloor X) - 52) + 53))
        by (apply (Z.pow_le_mono_r 2 0); lia).
      lia.
    - pose proof (Z.log2_spec _ H0) as [_ Hup].
      assert (2 ^ Z.succ (Z.log2 (Qfloor X))
              <= 2 ^ (Z.max 0 (Z.log2 (Qfloor X) - 52) + 53))
        by (apply Z.pow_le_mono_r; lia).
      lia. }
  apply Qlt_le_weak. eapply Qlt_le_trans; [exact HX|].
  rewrite <- Zle_Qle. lia.
Qed.

Lemma above_binade (X : Q) :
  0 < ulp_exponent X -> (inject_Z (2 ^ (ulp_exponent X + 52)) <= X)%Q.
Proof.
  intros Hk. eapply Qle_trans; [|apply Qfloor_le].
  rewrite <- Zle_Qle. unfold ulp_exponent in *.
  assert (H0 : 0 < Qfloor X).
  { destruct (Z.le_gt_cases (Qfloor X) 0) as [H|H]; [|lia].
    rewrite (Z.log2_nonpos _ H) in Hk. lia. }
  pose proof (Z.log2_spec _ H0) as [Hlo _].
  replace (Z.max 0 (Z.log2 (Qfloor X) - 52) + 52) with (Z.log2 (Qfloor X))
    by lia.
  exact Hlo.
Qed.

Lemma round_scaled_upper (X : Q) :
  round_scaled X <= 2 ^ (ulp_exponent X + 53).
Proof.
  unfold round_scaled. cbv zeta. set (k := ulp_exponent X).
  pose proof (ulp_exponent_nonneg X) as Hk. fold k in Hk.
  assert (H : round_half_even (X / inject_Z (2 ^ k)) <= 2 ^ 53).
  { rewrite <- (round_half_even_Z (2 ^ 53)). apply round_half_even_mono.
    apply Qle_shift_div_r; [now apply pow2_pos|].
    rewrite <- inject_Z_mult. rewrite <- Z.pow_add_r by lia.
    rewrite Z.add_comm. apply below_next_binade. }
  rewrite Z.pow_add_r by lia.
  assert (0 < 2 ^ k) by (apply Z.pow_pos_nonneg; lia). nia.
Qed.

Lemma round_scaled_lower (X : Q) :
  0 < ulp_exponent X -> 2 ^ (ulp_exponent X + 52) <= round_scaled X.
Proof.
  intros Hk0. pose proof (above_binade X Hk0) as HX.
  unfold round_scaled. cbv zeta. set (k := ulp_exponent X) in *.
  assert (H : 2 ^ 52 <= round_half_even (X / inject_Z (2 ^ k))).
  { rewrite <- (round_half_even_Z (2 ^ 52)). apply round_half_even_mono.
    apply Qle_shift_div_l; [apply pow2_pos; lia|].
    rewrite <- inject_Z_mult. rewrite <- Z.pow_add_r by lia.
    rewrite Z.add_comm. exact HX. }
  rewrite Z.pow_add_r by lia.
  assert (0 < 2 ^ k) by (apply Z.pow_pos_nonneg; lia). nia.
Qed.

Lemma round_scaled_mono (X Y : Q) :
  (X <= Y)%Q -> round_scaled X <= round_scaled Y.
Proof.
  intros Hle. pose proof (ulp_exponent_mono _ _ Hle) as Hk.
  destruct (Z.eq_dec (ulp_exponent X) (ulp_exponent Y)) as [E|Hne].
  - unfold round_scaled. cbv zeta. rewrite <- E.
    set (k := ulp_exponent X).
    assert (0 < 2 ^ k)
      by (apply Z.pow_pos_nonneg; [lia|apply ulp_exponent_nonneg]).
    apply Z.mul_le_mono_nonneg_r; [lia|].
    apply round_half_even_mono.
    apply Qmult_le_compat_r; [exact Hle|].
    apply Qlt_le_weak, Qinv_lt_0_compat, pow2_pos, ulp_exponent_nonneg.
  - pose proof (round_scaled_upper X) as HX.
    assert (HY0 : 0 < ulp_exponent Y)
      by (pose proof (ulp_exponent_nonneg X); lia).
    pose proof (round_scaled_lower Y HY0) as HY.
    assert (2 ^ (ulp_exponent X + 53) <= 2 ^ (ulp_exponent Y + 52))
      by (apply Z.pow_le_mono_r; lia).
    lia.
Qed.

Lemma round_scaled_comp (X Y : Q) :
  (X == Y)%Q -> round_scaled X = round_scaled Y.
Proof.
  intros E. apply Z.le_antisymm; apply round_scaled_mono; rewrite E;
    apply Qle_refl.
Qed.

Lemma round_scaled_nonneg (X : Q) : (0 <= X)%Q -> 0 <= round_scaled X.
Proof.
  intros HX. unfold round_scaled. cbv zeta.
  set (k := ulp_exponent X).
  assert (0 < 2 ^ k)
    by (apply Z.pow_pos_nonneg; [lia|apply ulp_exponent_nonneg]).
  apply Z.mul_nonneg_nonneg; [|lia].
  rewrite <- (round_half_even_Z 0). apply round_half_even_mono.
  apply Qle_shift_div_l; [apply pow2_pos, ulp_exponent_nonneg|].
  rewrite Qmult_0_l. exact HX.
Qed.

Lemma to_double_pos (x : Q) :
  (0 < x)%Q ->
  to_double x =
  (inject_Z (round_scaled (x * inject_Z (2 ^ 1074))) / inject_Z (2 ^ 1074))%Q.
Proof.
  intros H. unfold to_double.
  destruct (Qcompare_spec x 0) as [E|E|E]; [exfalso; lra..|reflexivity].
Qed.

Lemma to_double_neg (x : Q) :
  (x < 0)%Q ->
  to_double x =
  (- (inject_Z (round_scaled (- x * inject_Z (2 ^ 1074)))
      / inject_Z (2 ^ 1074)))%Q.
Proof.
  intros H. unfold to_double.
  destruct (Qcompare_spec x 0) as [E|E|E];
    [exfalso; lra|reflexivity|exfalso; lra].
Qed.

Lemma to_double_zero (x : Q) : (x == 0)%Q -> to_double x = 0%Q.
Proof.
  intros H. unfold to_double.
  destruct (Qcompare_spec x 0) as [E|E|E]; [reflexivity|exfalso; lra..].
Qed.

Lemma scale_pos : (0 < inject_Z (2 ^ 1074))%Q.
Proof. apply pow2_pos. lia. Qed.

Lemma to_double_nonneg (x : Q) : (0 <= x)%Q -> (0 <= to_double x)%Q.
Proof.
  intros Hx. destruct (Qlt_le_dec 0 x) as [H|H].
  - rewrite to_double_pos by exact H.
    apply Qle_shift_div_l; [apply scale_pos|]. rewrite Qmult_0_l.
    change 0%Q with (inject_Z 0). rewrite <- Zle_Qle.
    apply round_scaled_nonneg.
    apply Qmult_le_0_compat; [exact Hx|apply Qlt_le_weak, scale_pos].
  - rewrite to_double_zero; [apply Qle_refl|]. now apply Qle_antisym.
Qed.

Lemma to_double_nonpos (x : Q) : (x <= 0)%Q -> (to_double x <= 0)%Q.
Proof.
  intros Hx. destruct (Qlt_le_dec x 0) as [H|H].
  - rewrite to_double_neg by exact H.
    assert (0 <= inject_Z (round_scaled (- x * inject_Z (2 ^ 1074)))
                 / inject_Z (2 ^ 1074))%Q; [|lra].
    apply Qle_shift_div_l; [apply scale_pos|]. rewrite Qmult_0_l.
    change 0%Q with (inject_Z 0). rewrite <- Zle_Qle.
    apply round_scaled_nonneg.
    apply Qmult_le_0_compat; [lra|apply Qlt_le_weak, scale_pos].
  - rewrite to_double_zero; [apply Qle_refl|]. now apply Qle_antisym.
Qed.

Lemma scaled_mono (X Y : Q) :
  (X <= Y)%Q ->
  (inject_Z (round_scaled (X * inject_Z (2 ^ 1074))) / inject_Z (2 ^ 1074) <=
   inject_Z (round_scaled (Y * inject_Z (2 ^ 1074))) / inject_Z (2 ^ 1074))%Q.
Proof.
  intros Hle. apply Qmult_le_compat_r.
  - rewrite <- Zle_Qle. apply round_scaled_mono.
    apply Qmult_le_compat_r; [exact Hle|apply Qlt_le_weak, scale_pos].
  - apply Qlt_le_weak, Qinv_lt_0_compat, scale_pos.
Qed.

(** Rounding is monotone. *)
Lemma to_double_mono (x y : Q) : (x <= y)%Q -> (to_double x <= to_double y)%Q.
Proof.
  intros Hle.
  destruct (Qlt_le_dec 0 x) as [Hx|Hx].
  - assert (Hy : (0 < y)%Q) by lra.
    rewrite (to_double_pos x Hx), (to_double_pos y Hy). now apply scaled_mono.
  - destruct (Qlt_le_dec y 0) as [Hy|Hy].
    + assert (Hx' : (x < 0)%Q) by lra.
      rewrite (to_double_neg x Hx'), (to_double_neg y Hy).
      apply Qopp_le_compat. apply scaled_mono. lra.
    + eapply Qle_trans; [apply to_double_nonpos, Hx|].
      apply to_double_nonneg, Hy.
Qed.

Lemma to_double_comp (x y : Q) : (x == y)%Q -> (to_double x == to_double y)%Q.
Proof.
  intros E. apply Qle_antisym; apply to_double_mono; rewrite E; apply Qle_refl.
Qed.

(** Halves of integers below 2^53 are doubles. *)
Lemma to_double_half (m : Z) :
  0 <= m < 2 ^ 53 -> (to_double (inject_Z m / 2) == inject_Z m / 2)%Q.
Proof.
  intros [H0 Hm]. destruct (Z.eq_dec m 0) as [->|Hne].
  - rewrite to_double_zero; reflexivity.
  - assert (Hpos : (0 < inject_Z m / 2)%Q).
    { apply Qlt_shift_div_l; [reflexivity|]. rewrite Qmult_0_l.
      change 0%Q with (inject_Z 0). rewrite <- Zlt_Qlt. lia. }
    rewrite to_double_pos by exact Hpos.
    assert (HX : (inject_Z m / 2 * inject_Z (2 ^ 1074)
                  == inject_Z (m * 2 ^ 1073))%Q).
    { replace (2 ^ 1074) with (2 * 2 ^ 1073)
        by (rewrite <- Z.pow_succ_r; [reflexivity|lia]).
      rewrite !inject_Z_mult. field. }
    rewrite (round_scaled_comp _ _ HX).
    unfold round_scaled. cbv zeta.
    assert (Hk : ulp_exponent (inject_Z (m * 2 ^ 1073)) = Z.log2 m + 1021).
    { unfold ulp_exponent. rewrite Qfloor_Z.
      rewrite Z.log2_mul_pow2 by lia.
      pose proof (Z.log2_nonneg m). lia. }
    rewrite Hk.
    assert (Hl : Z.log2 m < 53) by (apply Z.log2_lt_pow2; lia).
    pose proof (Z.log2_nonneg m) as Hl0.
    set (k := Z.log2 m + 1021).
    assert (Hsplit : 2 ^ 1073 = 2 ^ (1073 - k) * 2 ^ k)
      by (rewrite <- Z.pow_add_r by (unfold k; lia); f_equal; lia).
    assert (Hq : (inject_Z (m * 2 ^ 1073) / inject_Z (2 ^ k)
                  == inject_Z (m * 2 ^ (1073 - k)))%Q).
    { rewrite Hsplit, Z.mul_assoc, inject_Z_mult.
      field. intros Hz. pose proof (pow2_pos k ltac:(unfold k; lia)) as Hp.
      rewrite Hz in Hp. discriminate. }
    rewrite (round_half_even_comp _ _ Hq), round_half_even_Z.
    rewrite <- Z.mul_assoc, <- Hsplit.
    replace (2 ^ 1074) with (2 * 2 ^ 1073)
      by (rewrite <- Z.pow_succ_r; [reflexivity|lia]).
    rewrite !inject_Z_mult. field.
    intros Hz. pose proof (pow2_pos 1073 ltac:(lia)) as Hp.
    rewrite Hz in Hp. discriminate.
Qed.

Lemma Qeq_by_computation (x y : Q) : Qeq_bool x y = true -> (x == y)%Q.
Proof. apply Qeq_bool_eq. Qed.

Lemma Qle_by_computation (x y : Q) : Qle_bool x y = true -> (x <= y)%Q.
Proof. apply Qle_bool_imp_le. Qed.

(** ** Aggregation *)

Lemma Qgtb_spec (x y : Q) : Qgtb x y = true <-> (y < x)%Q.
Proof.
  unfold Qgtb. rewrite negb_true_iff, <- not_true_iff_false, Qle_bool_iff.
  split; [apply Qnot_le_lt|apply Qlt_not_le].
Qed.

Lemma maxScore_is_max (s : Q) (rest : list Q) :
  is_max (maxScore s rest) (s :: rest).
Proof.
  unfold maxScore. revert s.
  induction rest as [|x r IH]; intros s; simpl.
  - split; [left; reflexivity|]. repeat constructor. apply Qle_refl.
  - destruct (IH (Qmax s x)) as [Hex Hall]. split.
    + apply Exists_cons in Hex as [Hm|Hm].
      * destruct (Q.max_spec s x) as [[_ E]|[_ E]].
        -- right. left. exact (Qeq_trans _ _ _ (Qeq_sym _ _ E) Hm).
        -- left. exact (Qeq_trans _ _ _ (Qeq_sym _ _ E) Hm).
      * right. right. exact Hm.
    + pose proof (Forall_inv Hall) as Hm.
      pose proof (Forall_inv_tail Hall) as Hr. simpl in Hm.
      apply Q.max_lub_iff in Hm as [Hs Hx].
      repeat constructor; assumption.
Qed.

Lemma is_max_unique (m m' : Q) (scores : list Q) :
  is_max m scores -> is_max m' scores -> (m == m')%Q.
Proof.
  intros [Hex Hall] [Hex' Hall'].
  rewrite Exists_exists in Hex, Hex'. rewrite Forall_forall in Hall, Hall'.
  destruct Hex as (x & Hx & Ex), Hex' as (y & Hy & Ey).
  apply Qle_antisym.
  - rewrite <- Ex. apply Hall'. exact Hx.
  - rewrite <- Ey. apply Hall. exact Hy.
Qed.

Lemma Qgtb_false (x y : Q) : (x <= y)%Q -> Qgtb x y = false.
Proof.
  intros H. unfold Qgtb. apply negb_false_iff. now apply Qle_bool_iff.
Qed.

(** One score above the maximum threshold flags. *)
Lemma flagged_by_max (svc : service) (scores : list Q) :
  Exists (fun s => max_threshold svc < s)%Q scores ->
  aggregate svc scores = flagged.
Proof.
  intros Hex. destruct scores as [|s rest]; [inversion Hex|].
  unfold aggregate. simpl length. simpl Nat.eqb. unfold shouldFlag.
  destruct (maxScore_is_max s rest) as [_ Hall].
  rewrite Exists_exists in Hex. destruct Hex as (x & Hx & Hgt).
  rewrite Forall_forall in Hall.
  assert (Hm : Qgtb (maxScore s rest) (max_threshold svc) = true).
  { apply Qgtb_spec. eapply Qlt_le_trans; [exact Hgt|]. now apply Hall. }
  rewrite Hm. reflexivity.
Qed.

(** The rounded sum of scores that are at most 0.3: after [k] scores it
    is at most [k / 2], and it never passes [2^52]. *)
Lemma rounded_sum_below_half (scores : list Q) :
  Forall (fun s => s <= 0.3)%Q scores ->
  forall (a : Q) (k : nat),
    (a <= inject_Z (Z.of_nat k) / 2)%Q -> (a <= inject_Z (2 ^ 52))%Q ->
    (fold_left double_add (map to_double scores) a
       <= inject_Z (Z.of_nat (k + length scores)) / 2)%Q /\
    (fold_left double_add (map to_double scores) a <= inject_Z (2 ^ 52))%Q.
Proof.
  induction 1 as [|x r Hx Hr IH]; intros a k Hk Hb; simpl.
  - rewrite Nat.add_0_r. auto.
  - assert (Ht : (to_double x <= 0.3)%Q).
    { eapply Qle_trans; [apply to_double_mono, Hx|].
      apply Qle_by_computation. vm_compute. reflexivity. }
    assert (Hb' : (double_add a (to_double x) <= inject_Z (2 ^ 52))%Q).
    { unfold double_add.
      eapply Qle_trans;
        [apply (to_double_mono _ (inject_Z (2 ^ 52) + 0.3)); lra|].
      apply Qle_by_computation. vm_compute. reflexivity. }
    assert (Hk' : (double_add a (to_double x)
                   <= inject_Z (Z.of_nat (S k)) / 2)%Q).
    { destruct (Z_lt_le_dec (Z.of_nat (S k)) (2 ^ 53)) as [Hlt|Hge].
      - rewrite <- (to_double_half (Z.of_nat (S k))) by lia.
        unfold double_add. apply to_double_mono.
        rewrite Nat2Z.inj_succ. unfold Z.succ. rewrite inject_Z_plus.
        change (inject_Z 1) with 1%Q.
        clear - Hk Ht. set (n := inject_Z (Z.of_nat k)) in *.
        set (t := to_double x) in *.
        assert (E : ((n + 1) / 2 == n / 2 + (1 # 2))%Q) by field.
        rewrite E. lra.
      - eapply Qle_trans; [exact Hb'|].
        apply Qle_shift_div_l; [reflexivity|].
        change 2%Q with (inject_Z 2). rewrite <- inject_Z_mult, <- Zle_Qle.
        change (2 ^ 53) with (2 ^ 52 * 2) in Hge. lia. }
    destruct (IH _ (S k) Hk' Hb') as [H1 H2]. split; [|exact H2].
    replace (k + S (length r))%nat with (S k + length r)%nat by lia.
    exact H1.
Qed.

Lemma avgScore_below_half (scores : list Q) :
  scores <> [] -> Forall (fun s => s <= 0.3)%Q scores ->
  (avgScore scores <= 1 # 2)%Q.
Proof.
  intros Hne Hall. unfold avgScore, double_div.
  destruct (rounded_sum_below_half scores Hall 0 0%nat) as [Hs _].
  { apply Qle_by_computation. vm_compute. reflexivity. }
  { apply Qle_by_computation. vm_compute. reflexivity. }
  simpl Nat.add in Hs.
  assert (Hn : (0 < inject_Z (Z.of_nat (length scores)))%Q).
  { change 0%Q with (inject_Z 0). rewrite <- Zlt_Qlt.
    destruct scores; [contradiction|simpl; lia]. }
  eapply Qle_trans;
    [apply (to_double_mono _ (1 # 2))|
     apply Qle_by_computation; vm_compute; reflexivity].
  apply Qle_shift_div_r; [exact Hn|].
  set (n := inject_Z (Z.of_nat (length scores))) in *.
  set (S := fold_left double_add (map to_double scores) 0%Q) in *.
  assert (n / 2 == (1 # 2) * n)%Q by (field).
  lra.
Qed.

(** C6 (the code against the claim): three frames that each score
    exactly 0.4 are flagged by the pixel-statistics service although
    no score and not their mean exceeds 0.4, because the sum
    0.4 + 0.4 + 0.4 rounds upwards; two such frames are safe.  Frames
    with channel means 102, standard deviations 17 and a size between
    50 and 200 kB score exactly 0.4: a 15-second clip of such frames is
    flagged, a 10-second clip of the same frames is safe. *)
Theorem C6_rounded_mean_flags_at_threshold :
  aggregate pixel_service [0.4; 0.4; 0.4]%Q = flagged /\
  aggregate pixel_service [0.4; 0.4]%Q = safe /\
  ~ (max_threshold pixel_service < to_double 0.4)%Q /\
  ~ (avg_threshold pixel_service
     < mean_of [to_double 0.4; to_double 0.4; to_double 0.4])%Q /\
  (pixel_score (Math_sqrt (env_threshold 15)) 60000
     {| mean := 102; stdev := 17 |} {| mean := 102; stdev := 17 |}
     {| mean := 102; stdev := 17 |} == 0.4)%Q /\
  fst (analyzeVideoSensitivity pixel_service (env_threshold 15)
         sample_tempDir "uploads/t1/clip.mp4" sample_state) = Ok flagged /\
  fst (analyzeVideoSensitivity pixel_service (env_threshold 10)
         sample_tempDir "uploads/t1/clip.mp4" sample_state) = Ok safe.
Proof.
  split; [vm_compute; reflexivity|].
  split; [vm_compute; reflexivity|].
  split; [apply Qle_not_lt, Qle_by_computation; vm_compute; reflexivity|].
  split; [apply Qle_not_lt, Qle_by_computation; vm_compute; reflexivity|].
  split; [apply Qeq_by_computation; vm_compute; reflexivity|].
  split; vm_compute; reflexivity.
Qed.

(** C7 (the code against the claim): the verdict depends on the order
    of the scores and on their number.  The scores 0.4, 0.4 and
    0.39999999999999997 are safe in this order and flagged with the
    last two exchanged; the sequences (0.4, 0.4) and (0.4, 0.4, 0.4)
    have the same maximum and the same mean, and the first is safe
    while the second is flagged. *)
Theorem C7_verdict_depends_on_order_and_count :
  Permutation [0.4; 0.4; 0.39999999999999997]%Q
              [0.4; 0.39999999999999997; 0.4]%Q /\
  aggregate pixel_service [0.4; 0.4; 0.39999999999999997]%Q = safe /\
  aggregate pixel_service [0.4; 0.39999999999999997; 0.4]%Q = flagged /\
  is_max (to_double 0.4) (map to_double [0.4; 0.4]%Q) /\
  is_max (to_double 0.4) (map to_double [0.4; 0.4; 0.4]%Q) /\
  (mean_of (map to_double [0.4; 0.4]%Q)
   == mean_of (map to_double [0.4; 0.4; 0.4]%Q))%Q /\
  aggregate pixel_service [0.4; 0.4]%Q = safe /\
  aggregate pixel_service [0.4; 0.4; 0.4]%Q = flagged.
Proof.
  split; [apply perm_skip, perm_swap|].
  split; [vm_compute; reflexivity|].
  split; [vm_compute; reflexivity|].
  split.
  { split; [left; reflexivity|].
    repeat constructor; apply Qle_refl. }
  split.
  { split; [left; reflexivity|].
    repeat constructor; apply Qle_refl. }
  split; [apply Qeq_by_computation; vm_compute; reflexivity|].
  split; vm_compute; reflexivity.
Qed.

(** ** Control flow of the monad *)

Lemma swallow_ok (m : M unit) (st : state) :
  exists st', swallow m st = (Ok tt, st').
Proof.
  unfold swallow, try_catch, ret.
  destruct (m st) as [[[]|msg] st']; eauto.
Qed.

Lemma for_of_swallow_ok {A} (xs : list A) (f : A -> M unit) (st : state) :
  exists st', for_of xs (fun x => swallow (f x)) st = (Ok tt, st').
Proof.
  revert st. induction xs as [|x xs IH]; intros st; simpl.
  - unfold ret. eauto.
  - unfold bind. destruct (swallow_ok (f x) st) as [st1 ->]. apply IH.
Qed.

Lemma for_push_length {A B} (xs : list A) (f : A -> M B)
    (st st' : state) (ys : list B) :
  for_push xs f st = (Ok ys, st') -> length ys = length xs.
Proof.
  revert st ys st'. induction xs as [|x xs IH]; intros st ys st'; simpl.
  - unfold ret. intros [= <- _]. reflexivity.
  - unfold bind, ret. destruct (f x st) as [[y|msg] st1]; [|discriminate].
    destruct (for_push xs f st1) as [[zs|msg] st2] eqn:E; [|discriminate].
    intros [= <- _]. simpl. f_equal. eapply IH, E.
Qed.

Lemma for_push_Forall {A B} (P : B -> Prop) (xs : list A) (f : A -> M B) :
  (forall x st y st', f x st = (Ok y, st') -> P y) ->
  forall st ys st', for_push xs f st = (Ok ys, st') -> Forall P ys.
Proof.
  intros Hf. induction xs as [|x xs IH]; intros st ys st'; simpl.
  - unfold ret. intros [= <- _]. constructor.
  - unfold bind, ret. destruct (f x st) as [[y|msg] st1] eqn:Ey; [|discriminate].
    destruct (for_push xs f st1) as [[zs|msg] st2] eqn:E; [|discriminate].
    intros [= <- _]. constructor; eauto.
Qed.

(** A loop over total steps is total. *)
Lemma for_push_total {A B} (xs : list A) (f : A -> M B) :
  (forall x st, exists y st', f x st = (Ok y, st')) ->
  forall st, exists ys st', for_push xs f st = (Ok ys, st').
Proof.
  intros Hf. induction xs as [|x xs IH]; intros st; simpl.
  - unfold ret. eauto.
  - unfold bind, ret. destruct (Hf x st) as (y & st1 & ->).
    destruct (IH st1) as (ys & st2 & ->). eauto.
Qed.

(** ** Footprint: the analysis touches files and random draws only *)

Lemma same_registry_refl (st : state) : same_registry st st.
Proof. unfold same_registry. auto. Qed.

Lemma same_registry_trans (st1 st2 st3 : state) :
  same_registry st1 st2 -> same_registry st2 st3 -> same_registry st1 st3.
Proof.
  unfold same_registry. intros (a & b & c & d & f) (a' & b' & c' & d' & f').
  repeat split; congruence.
Qed.

Lemma files_only_ret {A} (a : A) : files_only (ret a).
Proof. intros st. apply same_registry_refl. Qed.

Lemma files_only_throw {A} (msg : string) : files_only (@throw A msg).
Proof. intros st. apply same_registry_refl. Qed.

Lemma files_only_bind {A B} (m : M A) (k : A -> M B) :
  files_only m -> (forall a, files_only (k a)) -> files_only (bind m k).
Proof.
  intros Hm Hk st. unfold bind. specialize (Hm st).
  destruct (m st) as [[a|msg] st1]; simpl in *; [|exact Hm].
  eapply same_registry_trans; [exact Hm|apply Hk].
Qed.

Lemma files_only_try_catch {A} (m : M A) (h : string -> M A) :
  files_only m -> (forall msg, files_only (h msg)) ->
  files_only (try_catch m h).
Proof.
  intros Hm Hh st. unfold try_catch. specialize (Hm st).
  destruct (m st) as [[a|msg] st1]; simpl in *; [exact Hm|].
  eapply same_registry_trans; [exact Hm|apply Hh].
Qed.

Lemma files_only_for_of {A} (xs : list A) (body : A -> M unit) :
  (forall x, files_only (body x)) -> files_only (for_of xs body).
Proof.
  intros Hb. induction xs as [|x xs IH]; simpl.
  - apply files_only_ret.
  - apply files_only_bind; auto.
Qed.

Lemma files_only_for_push {A B} (xs : list A) (f : A -> M B) :
  (forall x, files_only (f x)) -> files_only (for_push xs f).
Proof.
  intros Hf. induction xs as [|x xs IH]; simpl.
  - apply files_only_ret.
  - apply files_only_bind; [auto|]. intros y.
    apply files_only_bind; [auto|]. intros ys. apply files_only_ret.
Qed.

Lemma files_only_guard (r : option string) : files_only (guard_refusal r).
Proof. destruct r; [apply files_only_throw|apply files_only_ret]. Qed.

(** A primitive that returns the state with another file system or
    another draw count. *)
Ltac files_prim :=
  intros st; unfold same_registry; simpl;
  repeat case_match; simpl; auto.

Lemma files_only_existsSync (dir : string) : files_only (existsSync dir).
Proof. files_prim. Qed.

Lemma files_only_mkdirSync e dir : files_only (mkdirSync e dir).
Proof.
  apply files_only_bind; [apply files_only_guard|]. intros _. files_prim.
Qed.

Lemma files_only_readdir e dir : files_only (readdir e dir).
Proof.
  apply files_only_bind; [apply files_only_guard|]. intros _. files_prim.
Qed.

Lemma files_only_unlink e p : files_only (unlink e p).
Proof.
  apply files_only_bind; [apply files_only_guard|]. intros _. files_prim.
Qed.

Lemma files_only_rmdirSync e dir : files_only (rmdirSync e dir).
Proof.
  apply files_only_bind; [apply files_only_guard|]. intros _. files_prim.
Qed.

Lemma files_only_stat e p : files_only (stat e p).
Proof.
  apply files_only_bind; [apply files_only_guard|]. intros _. files_prim.
Qed.

Lemma files_only_sharp_stats e p : files_only (sharp_stats e p).
Proof.
  apply files_only_bind; [apply files_only_guard|]. intros _. files_prim.
Qed.

Lemma files_only_random e : files_only (random e).
Proof. files_prim. Qed.

Lemma files_only_ffprobe_call e v : files_only (ffprobe_call e v).
Proof. files_prim. Qed.

Lemma files_only_ffmpeg_screenshots e v ts dir :
  files_only (ffmpeg_screenshots e v ts dir).
Proof.
  intros st. unfold ffmpeg_screenshots, same_registry.
  destruct (screenshots e v ts) as [written err].
  repeat case_match; simpl; auto.
Qed.

Create HintDb files discriminated.
#[local] Hint Resolve files_only_ret files_only_throw files_only_guard
  files_only_existsSync files_only_mkdirSync files_only_readdir
  files_only_unlink files_only_rmdirSync files_only_stat
  files_only_sharp_stats files_only_random files_only_ffprobe_call
  files_only_ffmpeg_screenshots : files.

Ltac files_step :=
  lazymatch goal with
  | |- forall _, _ => intro
  | |- files_only (bind _ _) => apply files_only_bind
  | |- files_only (try_catch _ _) => apply files_only_try_catch
  | |- files_only (rethrow _ _) => apply files_only_try_catch
  | |- files_only (swallow _) => apply files_only_try_catch
  | |- files_only (for_of _ _) => apply files_only_for_of
  | |- files_only (for_push _ _) => apply files_only_for_push
  | |- files_only (if ?b then _ else _) => destruct b
  | |- files_only (match ?x with _ => _ end) => destruct x
  | |- files_only _ => solve [auto with files]
  end.

Lemma files_only_extractFrames cap e videoPath outputDir interval :
  files_only (extractFrames cap e videoPath outputDir interval).
Proof. unfold extractFrames. repeat files_step. Qed.

Lemma files_only_analyzeFrame (v : variant) e p :
  files_only (analyzeFrame (service_of v) e p).
Proof.
  destruct v; simpl.
  - unfold PixelStats.analyzeFrame, PixelStats.analyzeFrame_try.
    repeat files_step.
  - unfold FileSize.analyzeFrame, FileSize.analyzeFrame_try.
    repeat files_step.
Qed.

Lemma files_only_analyzeVideoSensitivity (v : variant) e tempDir videoPath :
  files_only (analyzeVideoSensitivity (service_of v) e tempDir videoPath).
Proof.
  unfold analyzeVideoSensitivity, analysis_try, analysis_catch,
    cleanup_on_error.
  pose proof (files_only_extractFrames) as HE.
  pose proof (files_only_analyzeFrame v e) as HA.
  repeat files_step.
Qed.

(** ** The analysis run: outcome *)

Lemma analysis_catch_safe e tempDir st :
  exists st', analysis_catch e tempDir st = (Ok safe, st').
Proof.
  unfold analysis_catch, bind.
  destruct (swallow_ok (cleanup_on_error e tempDir) st) as [st' ->].
  unfold ret. eauto.
Qed.

(** [analyzeVideoSensitivity] never throws. *)
Lemma analyze_total svc e tempDir videoPath st :
  exists v st', analyzeVideoSensitivity svc e tempDir videoPath st = (Ok v, st').
Proof.
  unfold analyzeVideoSensitivity, try_catch.
  destruct (analysis_try svc e tempDir videoPath st) as [[v|msg] st1];
    [eauto|].
  destruct (analysis_catch_safe e tempDir st1) as [st' ->]. eauto.
Qed.

(** When extraction throws, the run is the [catch] block. *)
Lemma analyze_extraction_error svc e tempDir videoPath st msg st1 :
  extractFrames (frame_cap svc) e videoPath tempDir 5 st = (Err msg, st1) ->
  analyzeVideoSensitivity svc e tempDir videoPath st =
  analysis_catch e tempDir st1.
Proof.
  intros HE. unfold analyzeVideoSensitivity, try_catch, analysis_try, bind.
  rewrite HE. reflexivity.
Qed.

(** When extraction finds no frame, the run returns at once. *)
Lemma analyze_no_frames svc e tempDir videoPath st st1 :
  extractFrames (frame_cap svc) e videoPath tempDir 5 st = (Ok [], st1) ->
  analyzeVideoSensitivity svc e tempDir videoPath st = (Ok safe, st1).
Proof.
  intros HE. unfold analyzeVideoSensitivity, try_catch, analysis_try, bind.
  rewrite HE. reflexivity.
Qed.

(** When extraction and scoring succeed, the verdict is the aggregate of
    the scores. *)
Lemma analyze_verdict svc e tempDir videoPath st frames st1 scores st2 :
  extractFrames (frame_cap svc) e videoPath tempDir 5 st = (Ok frames, st1) ->
  for_push frames (analyzeFrame svc e) st1 = (Ok scores, st2) ->
  exists st',
    analyzeVideoSensitivity svc e tempDir videoPath st =
    (Ok (aggregate svc scores), st').
Proof.
  intros HE HS. unfold analyzeVideoSensitivity, try_catch, analysis_try, bind.
  rewrite HE. pose proof (for_push_length _ _ _ _ _ HS) as Hlen.
  unfold aggregate. rewrite Hlen.
  destruct (length frames =? 0)%nat eqn:E0.
  - unfold ret. eauto.
  - rewrite HS.
    destruct (for_of_swallow_ok frames (unlink e) st2) as [st3 ->].
    destruct (swallow_ok (rmdirSync e tempDir) st3) as [st4 ->].
    unfold ret. eauto.
Qed.

(** The converse reading: a verdict other than by the [catch] block or
    the early return is the aggregate of the scores of the frames. *)
Lemma analysis_try_inv svc e tempDir videoPath st v st' :
  analysis_try svc e tempDir videoPath st = (Ok v, st') ->
  v = safe \/
  exists frames st1 scores st2,
    for_push frames (analyzeFrame svc e) st1 = (Ok scores, st2) /\
    scores <> [] /\ v = aggregate svc scores.
Proof.
  unfold analysis_try, bind.
  destruct (extractFrames _ _ _ _ _ st) as [[frames|msg] st1]; [|discriminate].
  destruct (length frames =? 0)%nat eqn:E0.
  - unfold ret. intros [= <- _]. now left.
  - destruct (for_push frames (analyzeFrame svc e) st1)
      as [[scores|msg] st2] eqn:HS; [|discriminate].
    pose proof (for_push_length _ _ _ _ _ HS) as Hlen.
    destruct (for_of_swallow_ok frames (unlink e) st2) as [st3 ->].
    destruct (swallow_ok (rmdirSync e tempDir) st3) as [st4 ->].
    unfold ret. intros [= <- _]. right.
    exists frames, st1, scores, st2. split; [exact HS|]. split.
    + intros ->. simpl in Hlen. rewrite <- Hlen in E0. discriminate.
    + unfold aggregate. rewrite Hlen, E0. reflexivity.
Qed.

(** ** Frame scorers *)

Lemma pixel_score_range sqrt fileSize r g b :
  (0 <= pixel_score sqrt fileSize r g b /\
   pixel_score sqrt fileSize r g b <= 1)%Q.
Proof.
  unfold pixel_score. split.
  - apply Q.le_max_l.
  - apply Q.max_lub; [discriminate|apply Q.le_min_l].
Qed.

Lemma zero_in_unit : (0 <= 0 /\ 0 <= 1)%Q.
Proof. split; discriminate. Qed.

Lemma stat_cases e p st :
  (exists msg, stat e p st = (Err msg, st)) \/
  (exists f, lookup_file st p = Some f /\ stat e p st = (Ok (size f), st)).
Proof.
  unfold stat, bind, guard_refusal, throw, ret.
  destruct (os_refuses e (op_stat p)); [eauto|].
  destruct (lookup_file st p) as [f|]; eauto.
Qed.

Lemma sharp_stats_cases e p st :
  (exists msg, sharp_stats e p st = (Err msg, st)) \/
  (exists f chs, lookup_file st p = Some f /\ image f = Ok chs /\
                 sharp_stats e p st = (Ok chs, st)).
Proof.
  unfold sharp_stats, bind, guard_refusal, throw, ret.
  destruct (os_refuses e (op_decode p)); [eauto|].
  destruct (lookup_file st p) as [f|]; [|eauto].
  destruct (image f) as [chs|msg] eqn:E; [right|left]; eauto.
Qed.

(** The pixel-statistics scorer returns normally, in [[0, 1]], and
    leaves the state alone. *)
Lemma pixel_analyzeFrame_ok e p st :
  exists s, PixelStats.analyzeFrame e p st = (Ok s, st) /\
            (0 <= s /\ s <= 1)%Q.
Proof.
  unfold PixelStats.analyzeFrame, PixelStats.analyzeFrame_try, try_catch,
    bind.
  destruct (stat_cases e p st) as [[msg ->]|(f & _ & ->)];
    [exists 0%Q; split; [reflexivity|apply zero_in_unit]|].
  destruct (sharp_stats_cases e p st) as [[msg ->]|(f' & chs & _ & _ & ->)];
    [exists 0%Q; split; [reflexivity|apply zero_in_unit]|].
  destruct chs as [|r [|g [|b rest]]];
    try (exists 0%Q; split; [reflexivity|apply zero_in_unit]).
  eexists. split; [reflexivity|apply pixel_score_range].
Qed.

(** The file-size-only scorer returns normally; with [Math.random()] in
    [[0, 1)] its score is in [[0, 0.3)]. *)
Lemma filesize_analyzeFrame_ok e p st :
  exists s st', FileSize.analyzeFrame e p st = (Ok s, st') /\
    (random_in_range e -> (0 <= s /\ s < 0.3)%Q).
Proof.
  unfold FileSize.analyzeFrame, FileSize.analyzeFrame_try, try_catch, bind.
  assert (Z0 : (0 <= 0 /\ 0 < 0.3)%Q) by (split; [discriminate|reflexivity]).
  destruct (stat_cases e p st) as [[msg ->]|(f & _ & ->)];
    [exists 0%Q; unfold ret; eauto|].
  unfold random, ret.
  eexists. eexists. split; [reflexivity|].
  intros Hr. destruct (Hr (draws st)) as [H0 H1].
  set (r := Math_random e (draws st)) in *.
  split.
  - apply Q.min_glb; [discriminate|]. destruct (size f <? 1000); lra.
  - eapply Qle_lt_trans; [apply Q.le_min_r|].
    destruct (size f <? 1000); lra.
Qed.

Lemma analyzeFrame_ok (v : variant) e p st :
  exists s st', analyzeFrame (service_of v) e p st = (Ok s, st') /\
    (random_in_range e -> (0 <= s /\ s <= 1)%Q).
Proof.
  destruct v; simpl.
  - destruct (pixel_analyzeFrame_ok e p st) as (s & E & R). eauto.
  - destruct (filesize_analyzeFrame_ok e p st) as (s & st' & E & R).
    exists s, st'. split; [exact E|]. intros Hr.
    destruct (R Hr) as [R0 R1]. split; [exact R0|].
    apply Qlt_le_weak. eapply Qlt_trans; [exact R1|reflexivity].
Qed.

Lemma stat_missing e p st :
  lookup_file st p = None -> exists msg, stat e p st = (Err msg, st).
Proof.
  intros H. unfold stat, bind, guard_refusal, throw, ret.
  destruct (os_refuses e (op_stat p)); rewrite ?H; eauto.
Qed.

(** C5: for every path the frame scorer returns a value in [[0, 1]] and
    never throws; when its [try] body throws (unreadable file, decoder
    error, fewer than three channels) it returns 0; so the scoring loop
    of a run never throws either. *)
Theorem C5_scorer_bounded_never_throws
    (v : variant) (e : env) (p : path) (st : state) :
  random_in_range e ->
  (exists s st', analyzeFrame (service_of v) e p st = (Ok s, st') /\
                 (0 <= s /\ s <= 1)%Q) /\
  (forall msg st1, analyzeFrame_try_of v e p st = (Err msg, st1) ->
                   analyzeFrame (service_of v) e p st = (Ok 0%Q, st1)) /\
  (lookup_file st p = None ->
   fst (analyzeFrame (service_of v) e p st) = Ok 0%Q) /\
  (forall f msg, lookup_file st p = Some f -> image f = Err msg ->
                 fst (PixelStats.analyzeFrame e p st) = Ok 0%Q) /\
  (forall frames st0, exists scores st',
     for_push frames (analyzeFrame (service_of v) e) st0 = (Ok scores, st') /\
     length scores = length frames).
Proof.
  intros Hr. repeat split.
  - destruct (analyzeFrame_ok v e p st) as (s & st' & E & R).
    exists s, st'. auto.
  - intros msg st1 HT.
    destruct v; simpl in *;
      unfold PixelStats.analyzeFrame, FileSize.analyzeFrame, try_catch;
      rewrite HT; reflexivity.
  - intros Hnone. destruct (stat_missing e p st Hnone) as [msg Hs].
    destruct v; simpl;
      unfold PixelStats.analyzeFrame, PixelStats.analyzeFrame_try,
        FileSize.analyzeFrame, FileSize.analyzeFrame_try, try_catch, bind;
      rewrite Hs; reflexivity.
  - intros f msg Hf Himg.
    unfold PixelStats.analyzeFrame, PixelStats.analyzeFrame_try, try_catch,
      bind.
    destruct (stat_cases e p st) as [[m ->]|(f1 & _ & ->)]; [reflexivity|].
    destruct (sharp_stats_cases e p st)
      as [[m ->]|(f2 & chs & Hf2 & Hchs & _)]; [reflexivity|].
    congruence.
  - intros frames st0.
    destruct (for_push_total frames (analyzeFrame (service_of v) e))
      with (st := st0) as (scores & st' & E).
    + intros x s. destruct (analyzeFrame_ok v e x s) as (y & s' & Ey & _).
      eauto.
    + exists scores, st'. split; [exact E|].
      eapply for_push_length, E.
Qed.

Lemma C5_witness :
  random_in_range env_ok /\
  fst (analyzeFrame pixel_service env_ok
         (path_join sample_tempDir "frame_00:00:00.jpg") sample_state)
  = Ok 0%Q.
Proof.
  assert (Hr : random_in_range env_ok).
  { intros n. split; [discriminate|reflexivity]. }
  split; [exact Hr|].
  destruct (C5_scorer_bounded_never_throws PixelStatistics env_ok
              (path_join sample_tempDir "frame_00:00:00.jpg")
              sample_state Hr) as (_ & _ & Hmissing & _).
  apply Hmissing. vm_compute. reflexivity.
Defined.

(** ** Scores below both thresholds *)

(** Scores of at most 0.3 are safe under thresholds of at least 0.3 for
    the maximum and 0.5 for the mean. *)
Lemma aggregate_safe_below (svc : service) (scores : list Q) :
  Forall (fun x => x <= 0.3)%Q scores ->
  (0.3 <= max_threshold svc)%Q -> (1 # 2 <= avg_threshold svc)%Q ->
  aggregate svc scores = safe.
Proof.
  intros Hall Hmax Havg. destruct scores as [|s rest]; [reflexivity|].
  assert (Hne : s :: rest <> []) by discriminate.
  unfold aggregate. simpl length. simpl Nat.eqb. unfold shouldFlag.
  rewrite Qgtb_false, Qgtb_false; [reflexivity| |].
  - eapply Qle_trans; [apply (avgScore_below_half _ Hne Hall)|exact Havg].
  - destruct (maxScore_is_max s rest) as [Hex _].
    rewrite Exists_exists in Hex. destruct Hex as (x & Hx & Ex).
    rewrite Forall_forall in Hall. specialize (Hall x Hx).
    rewrite Ex in Hall. lra.
Qed.

Lemma filesize_score_below e p st s st' :
  random_in_range e ->
  FileSize.analyzeFrame e p st = (Ok s, st') -> (s < 0.3)%Q.
Proof.
  intros Hr E.
  destruct (filesize_analyzeFrame_ok e p st) as (s0 & st0 & E0 & R).
  rewrite E0 in E. injection E as <- _. apply (R Hr).
Qed.

Lemma filesize_aggregate_safe (scores : list Q) :
  Forall (fun s => s < 0.3)%Q scores ->
  aggregate filesize_service scores = safe.
Proof.
  intros Hall. apply aggregate_safe_below.
  - eapply Forall_impl; [exact Hall|]. intros x. apply Qlt_le_weak.
  - apply Qle_by_computation. vm_compute. reflexivity.
  - apply Qle_by_computation. vm_compute. reflexivity.
Qed.

Lemma filesize_run_safe e tempDir videoPath st :
  random_in_range e ->
  fst (analyzeVideoSensitivity filesize_service e tempDir videoPath st)
  = Ok safe.
Proof.
  intros Hr. unfold analyzeVideoSensitivity, try_catch.
  destruct (analysis_try filesize_service e tempDir videoPath st)
    as [[v|msg] st1] eqn:HT.
  - simpl. f_equal.
    destruct (analysis_try_inv _ _ _ _ _ _ _ HT)
      as [->|(frames & s1 & scores & s2 & HS & _ & ->)]; [reflexivity|].
    apply filesize_aggregate_safe. eapply for_push_Forall; [|exact HS].
    intros x s y s' E. exact (filesize_score_below _ _ _ _ _ Hr E).
  - destruct (analysis_catch_safe e tempDir st1) as [st' ->]. reflexivity.
Qed.

(** C10: in the file-size-only service every frame score is below 0.3,
    so with thresholds 0.7 and 0.5 the verdict of every run is [safe]. *)
Theorem C10_filesize_service_never_flags (e : env) :
  random_in_range e ->
  (forall p st s st', FileSize.analyzeFrame e p st = (Ok s, st') ->
                      (s < 0.3)%Q) /\
  (forall scores, Forall (fun s => s < 0.3)%Q scores ->
                  aggregate filesize_service scores = safe) /\
  (forall tempDir videoPath st,
     fst (analyzeVideoSensitivity filesize_service e tempDir videoPath st)
     = Ok safe).
Proof.
  intros Hr. split; [|split].
  - intros p st s st'. now apply filesize_score_below.
  - apply filesize_aggregate_safe.
  - intros tempDir videoPath st. now apply filesize_run_safe.
Qed.

Lemma C10_witness :
  random_in_range env_ok /\
  fst (analyzeVideoSensitivity filesize_service env_ok sample_tempDir
         "uploads/t1/clip.mp4" sample_state) = Ok safe.
Proof.
  assert (Hr : random_in_range env_ok).
  { intros n. split; [discriminate|reflexivity]. }
  split; [exact Hr|].
  apply (C10_filesize_service_never_flags env_ok Hr).
Defined.

(** ** Determinism *)

(** The pixel-statistics service never calls [Math.random()]. *)
Lemma pixel_ignores_random (r : nat -> Q) e tempDir videoPath :
  analyzeVideoSensitivity pixel_service (with_random r e) tempDir videoPath =
  analyzeVideoSensitivity pixel_service e tempDir videoPath.
Proof. reflexivity. Qed.

Lemma pixel_score_ignores_random (r : nat -> Q) e p :
  PixelStats.analyzeFrame (with_random r e) p = PixelStats.analyzeFrame e p.
Proof. reflexivity. Qed.

(** The file-size-only scorer gives 0.05 or 0.15 for the same frame,
    depending on the random draw. *)
Lemma C4_counterexample : ~ scoring_without_randomness FileSizeOnly.
Proof.
  intros H.
  specialize (H env_ok (fun _ => 0%Q) (fun _ => 0.5%Q)
                (path_join sample_tempDir "frame_00:00:00.jpg")
                sample_state_with_frame).
  assert (H0 : unit_interval (fun _ => 0%Q))
    by (intros n; split; [discriminate|reflexivity]).
  assert (H1 : unit_interval (fun _ => 0.5%Q))
    by (intros n; split; [discriminate|reflexivity]).
  specialize (H H0 H1). vm_compute in H. discriminate.
Qed.

(** ** Clean-up *)

Lemma with_fs_draws_eta (st st' : state) :
  same_registry st st' -> st' = with_fs (fs st') (with_draws (draws st') st).
Proof.
  unfold same_registry. destruct st, st'. simpl.
  intros (-> & -> & -> & -> & ->). reflexivity.
Qed.

Lemma readdir_ok e dir st files st' :
  readdir e dir st = (Ok files, st') ->
  st' = st /\ exists d, fs st !! dir = Some d /\
                        files = map fst (map_to_list d).
Proof.
  unfold readdir, bind, guard_refusal, throw, ret.
  destruct (os_refuses e (op_readdir dir)); [discriminate|].
  destruct (fs st !! dir) as [d|]; [|discriminate].
  intros [= <- <-]. eauto.
Qed.

Lemma listing_spec (d : gmap string file) (k : string) :
  k ∈ map fst (map_to_list d) <-> is_Some (d !! k).
Proof.
  change (map fst (map_to_list d)) with ((map_to_list d).*1).
  rewrite list_elem_of_fmap. split.
  - intros ([k' f] & -> & Hin). apply elem_of_map_to_list in Hin. eauto.
  - intros [f Hf]. exists (k, f). split; [reflexivity|].
    now apply elem_of_map_to_list.
Qed.

(** When no [unlink] request is refused the loop of the [catch] block
    empties the directory. *)
Lemma unlink_all e dir (l : list string) :
  (forall file, os_refuses e (op_unlink (path_join dir file)) = None) ->
  forall st d,
    fs st !! dir = Some d -> NoDup l ->
    (forall k, k ∈ l <-> is_Some (d !! k)) ->
    exists st',
      for_of l (fun file => unlink e (path_join dir file)) st = (Ok tt, st') /\
      fs st' !! dir = Some ∅.
Proof.
  intros Hos. induction l as [|x l IH]; intros st d Hd Hnd Hk; simpl.
  - exists st. split; [reflexivity|]. rewrite Hd. f_equal.
    apply map_empty. intros k. apply eq_None_not_Some. rewrite <- Hk.
    apply not_elem_of_nil.
  - apply NoDup_cons in Hnd as [Hx Hnd].
    assert (Hdx : is_Some (d !! x)) by (apply Hk; left).
    destruct Hdx as [f Hf].
    unfold bind at 1, unlink, bind, guard_refusal.
    rewrite (Hos x). unfold ret. simpl.
    rewrite Hd, Hf.
    apply (IH _ (delete x d)).
    + simpl. apply lookup_insert_eq.
    + exact Hnd.
    + intros k. split.
      * intros Hin. rewrite lookup_delete_ne by (intros ->; contradiction).
        apply Hk. now right.
      * intros Hs. destruct (decide (x = k)) as [->|Hne].
        -- rewrite lookup_delete_eq in Hs. destruct Hs; discriminate.
        -- rewrite lookup_delete_ne in Hs by exact Hne.
           apply Hk in Hs. apply elem_of_cons in Hs as [->|Hs];
             [contradiction|exact Hs].
Qed.


Lemma cleanup_on_error_removes e tempDir st :
  cleanup_cooperates e tempDir ->
  exists st', cleanup_on_error e tempDir st = (Ok tt, st') /\
              fs st' !! tempDir = None.
Proof.
  intros (Hrd & Hul & Hrm). unfold cleanup_on_error, bind at 1, existsSync.
  destruct (fs st !! tempDir) as [d|] eqn:Hd.
  - rewrite bool_decide_eq_true_2 by eauto.
    unfold bind at 1, readdir, bind, guard_refusal.
    rewrite Hrd. unfold ret. rewrite Hd.
    unfold bind.
    destruct (unlink_all e tempDir (map fst (map_to_list d)) Hul st d Hd)
      as (st1 & -> & Hempty).
    + apply NoDup_fst_map_to_list.
    + apply listing_spec.
    + unfold rmdirSync, bind, guard_refusal.
      rewrite Hrm. unfold ret. rewrite Hempty.
      rewrite bool_decide_eq_true_2 by reflexivity.
      eexists. split; [reflexivity|]. simpl. apply lookup_delete_eq.
  - rewrite bool_decide_eq_false_2 by (intros [? ?]; discriminate).
    exists st. split; [reflexivity|exact Hd].
Qed.

Lemma files_only_cleanup e tempDir : files_only (cleanup_on_error e tempDir).
Proof. unfold cleanup_on_error. repeat files_step. Qed.

(** The [catch] block of the analysis: the verdict is [safe], the
    registry is untouched, and the directory is gone when none of the
    clean-up requests is refused. *)
Lemma analysis_catch_spec e tempDir st :
  exists st',
    analysis_catch e tempDir st = (Ok safe, st') /\
    same_registry st st' /\
    (cleanup_cooperates e tempDir -> fs st' !! tempDir = None).
Proof.
  unfold analysis_catch, bind, swallow, try_catch.
  pose proof (files_only_cleanup e tempDir st) as Hreg.
  destruct (cleanup_on_error e tempDir st) as [[[]|msg] st1] eqn:HC;
    simpl in Hreg; unfold ret; exists st1;
    (split; [reflexivity|]); (split; [exact Hreg|]); intros Hos;
    destruct (cleanup_on_error_removes e tempDir st Hos) as (st2 & E & Hd);
    rewrite E in HC; [|discriminate].
  injection HC as <-. exact Hd.
Qed.

Lemma analyze_extraction_error_spec svc e tempDir videoPath st msg st1 :
  extractFrames (frame_cap svc) e videoPath tempDir 5 st = (Err msg, st1) ->
  exists st',
    analyzeVideoSensitivity svc e tempDir videoPath st = (Ok safe, st') /\
    same_registry st st' /\
    (cleanup_cooperates e tempDir -> fs st' !! tempDir = None).
Proof.
  intros HE. rewrite (analyze_extraction_error _ _ _ _ _ _ _ HE).
  destruct (analysis_catch_spec e tempDir st1) as (st' & E & Hreg & Hd).
  exists st'. split; [exact E|]. split; [|exact Hd].
  eapply same_registry_trans; [|exact Hreg].
  pose proof (files_only_extractFrames (frame_cap svc) e videoPath tempDir 5
                st) as H.
  rewrite HE in H. exact H.
Qed.

(** Extraction leaves its output directory behind. *)
Lemma extractFrames_dir_exists cap e videoPath outputDir interval
    st frames st1 :
  extractFrames cap e videoPath outputDir interval st = (Ok frames, st1) ->
  is_Some (fs st1 !! outputDir).
Proof.
  unfold extractFrames, bind.
  destruct (existsSync outputDir st) as [[there|m] s1]; [|discriminate].
  destruct ((if negb there then mkdirSync e outputDir else ret tt) s1)
    as [[[]|m] s2]; [|discriminate].
  destruct (rethrow _ (ffprobe_call e videoPath) s2)
    as [[probed|m] s3]; [|discriminate].
  destruct (rethrow _ (ffmpeg_screenshots e videoPath _ outputDir) s3)
    as [[[]|m] s4]; [|discriminate].
  unfold rethrow, try_catch.
  destruct (readdir e outputDir s4) as [[files|m] s5] eqn:HR;
    [|unfold throw; discriminate].
  unfold ret. intros [= _ <-].
  destruct (readdir_ok _ _ _ _ _ HR) as (-> & d & Hd & _). eauto.
Qed.

(** C8 (the exit path that misses the clean-up): when extraction
    succeeds without a frame, [analyzeVideoSensitivity] returns [safe]
    in the very state extraction left, so no removal was attempted and
    the temporary directory is still there. *)
Theorem C8_no_frames_exit_skips_cleanup
    (svc : service) (e : env) (tempDir videoPath : string) (st st1 : state) :
  extractFrames (frame_cap svc) e videoPath tempDir 5 st = (Ok [], st1) ->
  analyzeVideoSensitivity svc e tempDir videoPath st = (Ok safe, st1) /\
  is_Some (fs st1 !! tempDir).
Proof.
  intros HE. split.
  - now apply analyze_no_frames.
  - eapply extractFrames_dir_exists, HE.
Qed.

Lemma C8_witness :
  extractFrames (frame_cap pixel_service) env_no_frames
    "uploads/t1/clip.mp4" sample_tempDir 5 sample_state
  = (Ok [], with_fs {[ "temp" := ∅; sample_tempDir := ∅ ]} sample_state) /\
  analyzeVideoSensitivity pixel_service env_no_frames sample_tempDir
    "uploads/t1/clip.mp4" sample_state
  = (Ok safe, with_fs {[ "temp" := ∅; sample_tempDir := ∅ ]} sample_state) /\
  fs sample_state !! sample_tempDir = None /\
  is_Some (fs (with_fs {[ "temp" := ∅; sample_tempDir := ∅ ]} sample_state)
             !! sample_tempDir).
Proof.
  assert (HE : extractFrames (frame_cap pixel_service) env_no_frames
                 "uploads/t1/clip.mp4" sample_tempDir 5 sample_state
               = (Ok [], with_fs {[ "temp" := ∅; sample_tempDir := ∅ ]}
                                 sample_state))
    by (vm_compute; reflexivity).
  destruct (C8_no_frames_exit_skips_cleanup pixel_service env_no_frames
              sample_tempDir "uploads/t1/clip.mp4" sample_state _ HE)
    as [Hrun Hdir].
  split; [exact HE|]. split; [exact Hrun|]. split; [reflexivity|exact Hdir].
Defined.

(** In the [catch] block one [try] surrounds the whole loop: once an
    [unlink] is refused, the remaining files are not visited.  Here the
    second frame could be deleted, and is still there on return. *)
Lemma catch_cleanup_stops_at_first_refusal :
  let st' := snd (analyzeVideoSensitivity pixel_service env_locked_frame
                    sample_tempDir "uploads/t1/clip.mp4" sample_state) in
  os_refuses env_locked_frame
    (op_unlink (path_join sample_tempDir "frame_b.jpg")) = None /\
  lookup_file st' (path_join sample_tempDir "frame_b.jpg")
  = Some (sample_frame 60000).
Proof. split; vm_compute; reflexivity. Qed.

(** What does hold of the clean-up: whatever the operating system
    answers to [unlink] and [rmdir], the run returns the same verdict
    and never throws. *)
Lemma cleanup_refusals_never_change_verdict
    (v : variant) (f : fs_op -> option string) e tempDir videoPath st :
  fst (analyzeVideoSensitivity (service_of v) (with_cleanup_refusals f e)
         tempDir videoPath st) =
  fst (analyzeVideoSensitivity (service_of v) e tempDir videoPath st).
Proof.
  set (e' := with_cleanup_refusals f e).
  assert (HX : extractFrames (frame_cap (service_of v)) e'
               = extractFrames (frame_cap (service_of v)) e) by reflexivity.
  assert (HA : analyzeFrame (service_of v) e' = analyzeFrame (service_of v) e)
    by (destruct v; reflexivity).
  unfold analyzeVideoSensitivity, try_catch, analysis_try, bind.
  rewrite HX, HA.
  destruct (extractFrames _ e videoPath tempDir 5 st) as [[frames|msg] st1].
  - destruct (length frames =? 0)%nat; [reflexivity|].
    destruct (for_push frames _ st1) as [[scores|msg] st2].
    + destruct (for_of_swallow_ok frames (unlink e') st2) as [s3 ->].
      destruct (swallow_ok (rmdirSync e' tempDir) s3) as [s4 ->].
      destruct (for_of_swallow_ok frames (unlink e) st2) as [s5 ->].
      destruct (swallow_ok (rmdirSync e tempDir) s5) as [s6 ->].
      reflexivity.
    + destruct (analysis_catch_safe e' tempDir st2) as [s3 ->].
      destruct (analysis_catch_safe e tempDir st2) as [s4 ->].
      reflexivity.
  - destruct (analysis_catch_safe e' tempDir st1) as [s3 ->].
    destruct (analysis_catch_safe e tempDir st1) as [s4 ->].
    reflexivity.
Qed.

(** ** Orchestrator *)

Lemma with_videos_eta (st : state) : with_videos (videos st) st = st.
Proof. destruct st. reflexivity. Qed.

Lemma Video_findOne_cases e videoId tenantId st :
  exists r, Video_findOne e videoId tenantId st = (r, st).
Proof.
  unfold Video_findOne, bind, guard_refusal, throw, ret.
  destruct (db_refuses e _); [eauto|].
  destruct (videos st !! videoId) as [v|]; [|eauto].
  destruct (String.eqb _ _); eauto.
Qed.

Lemma Video_findOne_found e videoId tenantId st v :
  db_cooperates e -> videos st !! videoId = Some v ->
  v_tenantId v = tenantId ->
  Video_findOne e videoId tenantId st = (Ok (Some v), st).
Proof.
  intros Hdb Hv Ht. unfold Video_findOne, bind, guard_refusal, ret.
  rewrite Hdb, Hv, Ht, String.eqb_refl. reflexivity.
Qed.

Lemma updateVideoStatus_cases e videoId tenantId u st :
  exists r vs, updateVideoStatus e videoId tenantId u st = (r, with_videos vs st).
Proof.
  unfold updateVideoStatus, bind, guard_refusal, throw, ret.
  destruct (db_refuses e _);
    [exists (Err s), (videos st); now rewrite with_videos_eta|].
  destruct (videos st !! videoId) as [v|];
    [|exists (Ok None), (videos st); now rewrite with_videos_eta].
  destruct (String.eqb _ _); [eauto|].
  exists (Ok None), (videos st). now rewrite with_videos_eta.
Qed.

Lemma updateVideoStatus_found e videoId tenantId u st v :
  db_cooperates e -> videos st !! videoId = Some v ->
  v_tenantId v = tenantId ->
  updateVideoStatus e videoId tenantId u st =
  (Ok (Some (apply_updates u v)),
   with_videos (<[videoId := apply_updates u v]> (videos st)) st).
Proof.
  intros Hdb Hv Ht. unfold updateVideoStatus, bind, guard_refusal, ret.
  rewrite Hdb, Hv, Ht, String.eqb_refl. reflexivity.
Qed.

Lemma getVideoMetadata_ok e videoPath st :
  exists d, getVideoMetadata e videoPath st = (Ok d, st).
Proof. unfold getVideoMetadata. destruct (ffprobe e videoPath); eauto. Qed.

Lemma analyze_explicit (v : variant) e tempDir videoPath st :
  exists verdict f n,
    analyzeVideoSensitivity (service_of v) e tempDir videoPath st =
    (Ok verdict, with_fs f (with_draws n st)).
Proof.
  destruct (analyze_total (service_of v) e tempDir videoPath st)
    as (verdict & st' & E).
  pose proof (files_only_analyzeVideoSensitivity v e tempDir videoPath st)
    as Hreg.
  rewrite E in Hreg. simpl in Hreg.
  exists verdict, (fs st'), (draws st').
  rewrite E. f_equal. now apply with_fs_draws_eta.
Qed.

(** Symbolic execution of the orchestrator: reduce the pure steps, and
    split on the outcome of each call to a collaborator. *)
Ltac run_pure :=
  cbn beta iota delta
    [new_job queue_set queue_delete set_status set_progress
     set_safetyStatus emit ret throw
     with_fs with_draws with_videos with_heap with_queue with_emitted
     with_progress_log
     fs draws videos heap processingQueue emitted progress_log j_progress].

Ltac run_call :=
  match goal with
  | |- context [Video_findOne ?e ?i ?t ?S] =>
      let r := fresh "found" in
      destruct (Video_findOne_cases e i t S) as [r ->];
      destruct r as [[?video|]|?msg]
  | |- context [updateVideoStatus ?e ?i ?t ?u ?S] =>
      let r := fresh "r" in let vs := fresh "vs" in
      destruct (updateVideoStatus_cases e i t u S) as (r & vs & ->);
      destruct r as [?updated|?msg]
  | |- context [getVideoMetadata ?e ?p ?S] =>
      let d := fresh "duration" in
      destruct (getVideoMetadata_ok e p S) as [d ->]
  | |- context [analyzeVideoSensitivity (service_of ?v) ?e ?d ?p ?S] =>
      let vd := fresh "safetyStatus" in
      let f := fresh "f" in let n := fresh "n" in
      destruct (analyze_explicit v e d p S) as (vd & f & n & ->)
  end; run_pure.

Ltac log_done l :=
  unfold progress_post, queue_delete; exists l;
  cbn beta iota delta [fst snd]; run_pure;
  rewrite <- ?app_assoc; cbn [app];
  split; [rewrite ?app_nil_r; reflexivity|];
  split; [eexists; reflexivity|];
  split; [repeat constructor; lia|];
  try discriminate; intros _; apply lookup_delete_eq.

Lemma processVideo_try_spec (v : variant) e tempDir videoId tenantId io st :
  progress_post st videoId
    (processVideo_try (service_of v) e tempDir videoId tenantId io st).
Proof.
  unfold processVideo_try, bind. destruct io; run_pure.
  all: run_call; try log_done (@nil Z).
  all: run_call; try log_done [0].
  all: run_call.
  all: run_call; try log_done [0; 10; 30].
  all: run_call.
  all: run_call; try log_done [0; 10; 30; 80].
  all: log_done [0; 10; 30; 80; 100].
Qed.

(** The [catch] block never throws; it removes the job and writes
    nothing to a progress field. *)
Lemma processVideo_catch_spec e videoId tenantId io error st :
  exists st',
    processVideo_catch e videoId tenantId io error st = (Ok tt, st') /\
    processingQueue st' = delete videoId (processingQueue st) /\
    progress_log st' = progress_log st /\
    fs st' = fs st.
Proof.
  unfold processVideo_catch, bind, swallow, try_catch.
  destruct (updateVideoStatus_cases e videoId tenantId
              {| u_status := Some failed; u_safetyStatus := None;
                 u_duration := None |} st) as (r & vs & ->).
  destruct r, io; run_pure; eexists; repeat split.
Qed.

(** C9: within one run the values written to the job's progress field
    never decrease (they are an initial segment of 0, 10, 30, 80, 100),
    the run never throws, and on the success path as on the failure path
    the job is out of the registry when the run ends, so a status query
    for the video returns nothing. *)
Theorem C9_progress_monotone_job_removed
    (v : variant) (e : env) (tempDir videoId tenantId : string)
    (io : bool) (st : state) :
  let rs := processVideo (service_of v) e tempDir videoId tenantId io st in
  fst rs = Ok tt /\
  (exists l, progress_log (snd rs) = (progress_log st ++ l)%list /\
             l `prefix_of` [0; 10; 30; 80; 100] /\
             StronglySorted Z.le l) /\
  getProcessingStatus (snd rs) videoId = None.
Proof.
  unfold processVideo, try_catch.
  pose proof (processVideo_try_spec v e tempDir videoId tenantId io st)
    as (l & Hlog & Hpre & Hsorted & Hq).
  destruct (processVideo_try _ _ _ _ _ _ st) as [[[]|msg] st1];
    simpl in Hlog, Hq.
  - simpl. split; [reflexivity|]. split; [eauto|].
    unfold getProcessingStatus. now rewrite Hq.
  - destruct (processVideo_catch_spec e videoId tenantId io msg st1)
      as (st' & -> & Hq' & Hlog' & _).
    simpl. split; [reflexivity|]. split.
    + exists l. rewrite Hlog', Hlog. auto.
    + unfold getProcessingStatus. rewrite Hq', lookup_delete_eq. reflexivity.
Qed.

(** ** A failed extraction *)




Ltac run_update Hdb Ht :=
  match goal with
  | |- context [updateVideoStatus ?e ?i ?t ?u ?S] =>
      erewrite (updateVideoStatus_found e i t u S _ Hdb);
      [ | run_pure; first [eassumption | apply lookup_insert_eq]
        | first [exact Ht | cbn; exact Ht] ]
  end; run_pure.



(** * Further properties of the modelled code *)

(** ** Timestamps *)

(** X1: whatever the probe reports and whatever the interval,
    [extractFrames] requests at least one and at most [max(1, CAP)]
    timestamps. *)
Theorem X1_timestamp_count_bounds
    (cap : Z) (probed : probed_duration) (I : Z) :
  (1 <= length (timestamps cap probed I))%nat /\
  Z.of_nat (length (timestamps cap probed I)) <= Z.max 1 cap.
Proof.
  destruct (duration_or_zero probed) as [d|] eqn:Hd.
  2: { destruct probed; try discriminate. simpl. lia. }
  destruct (Z.eq_dec I 0) as [->|HI].
  - unfold timestamps, numFrames. rewrite Hd. simpl Z.eqb. cbv iota.
    destruct (Qeq_bool d 0); [simpl; lia|].
    destruct (Qle_bool 0 d); [|simpl; lia].
    unfold loop_indices. rewrite !List.length_map, List.length_seq.
    destruct (Z.to_nat (Z.max 1 cap)) eqn:E; [lia|].
    simpl Nat.eqb. cbv iota.
    rewrite !List.length_map, List.length_seq. lia.
  - rewrite (timestamps_loop cap probed I d) by assumption.
    rewrite !List.length_map, List.length_seq. unfold clamp. lia.
Qed.

(** X2: the timestamp list is the 1-second fallback exactly when the
    frame count is [NaN]: when the probe reports the duration as text
    (an unknown duration), or when the interval and the duration are
    both zero; for every other input the fallback branch is dead. *)
Theorem X2_fallback_reached_only_for_nan
    (cap : Z) (probed : probed_duration) (I : Z) :
  timestamps cap probed I = ["00:00:01"] <->
  probed = duration_text \/
  (I = 0 /\ exists d, duration_or_zero probed = Some d /\ (d == 0)%Q).
Proof. apply fallback_only_for_nan. Qed.

Lemma format_timestamp_inj (s1 s2 : Z) :
  0 <= s1 -> 0 <= s2 -> format_timestamp s1 = format_timestamp s2 -> s1 = s2.
Proof.
  intros H1 H2 E.
  pose proof (seconds_of_format s1 H1) as E1.
  rewrite E, (seconds_of_format s2 H2) in E1. congruence.
Qed.

(** X3: distinct non-negative offsets are rendered as distinct
    [HH:MM:SS] strings, so for a positive interval the timestamps handed
    to the decoder are pairwise different. *)
Theorem X3_timestamps_pairwise_distinct
    (cap : Z) (probed : probed_duration) (I : Z) :
  0 < I ->
  (forall s1 s2, 0 <= s1 -> 0 <= s2 ->
     format_timestamp s1 = format_timestamp s2 -> s1 = s2) /\
  NoDup (timestamps cap probed I).
Proof.
  intros HI. split; [apply format_timestamp_inj|].
  destruct (duration_or_zero probed) as [d|] eqn:Hd.
  2: { destruct probed; try discriminate. rewrite timestamps_text.
       apply NoDup_singleton. }
  rewrite (timestamps_loop cap probed I d) by (lia || assumption).
  rewrite List.map_map.
  apply (NoDup_fmap_2_strong (fun k => format_timestamp (Z.of_nat k * I)));
    [|apply NoDup_seq].
  intros x y _ _ E. apply format_timestamp_inj in E; nia.
Qed.

Lemma X3_witness :
  0 < 5 /\ NoDup (timestamps 30 (duration_number 50%Q) 5).
Proof.
  assert (H : 0 < 5) by lia.
  split; [exact H|].
  exact (proj2 (X3_timestamps_pairwise_distinct 30 (duration_number 50%Q) 5
                  H)).
Defined.

(** ** Scores *)

(** X4: the size contribution grows with the file size and stays
    between 0.1 and 0.8. *)
Theorem X4_sizeRisk_monotone (a b : Z) :
  a <= b ->
  (sizeRisk a <= sizeRisk b /\ 0.1 <= sizeRisk a /\ sizeRisk a <= 0.8)%Q.
Proof.
  intros Hab. unfold sizeRisk.
  destruct (a <? 5000) eqn:A1, (a <? 50000) eqn:A2, (a <? 200000) eqn:A3,
    (b <? 5000) eqn:B1, (b <? 50000) eqn:B2, (b <? 200000) eqn:B3;
    try (repeat split; vm_compute; discriminate);
    exfalso;
    repeat match goal with
           | H : (_ <? _) = true |- _ => apply Z.ltb_lt in H
           | H : (_ <? _) = false |- _ => apply Z.ltb_ge in H
           end; lia.
Qed.

Lemma X4_witness :
  4000 <= 60000 /\ (sizeRisk 4000 <= sizeRisk 60000)%Q.
Proof.
  assert (H : 4000 <= 60000) by lia.
  split; [exact H|exact (proj1 (X4_sizeRisk_monotone 4000 60000 H))].
Defined.

Lemma sizeRisk_bounds (n : Z) : (0.1 <= sizeRisk n /\ sizeRisk n <= 0.8)%Q.
Proof.
  unfold sizeRisk.
  destruct (n <? 5000), (n <? 50000), (n <? 200000);
    split; vm_compute; discriminate.
Qed.

(** X5: the pixel-statistics score never exceeds 0.96, whatever the
    statistics and the file size: the upper clamp at 1 is never
    active. *)
Theorem X5_pixel_score_at_most_096 sqrt fileSize r g b :
  (pixel_score sqrt fileSize r g b <= 0.96)%Q.
Proof.
  unfold pixel_score. cbv zeta.
  apply Q.max_lub; [discriminate|].
  eapply Qle_trans; [apply Q.le_min_r|].
  pose proof (Qabs_nonneg
    ((mean r / 255 + mean g / 255 + mean b / 255) / 3 - 0.5)%Q) as Habs.
  pose proof (Q.le_min_l 1 ((stdev r / 255 + stdev g / 255 + stdev b / 255)
                              / 3 * 2)%Q) as Hc.
  pose proof (Q.le_min_l 1
    (sqrt (((mean r / 255 - mean g / 255) ^ 2 +
            (mean r / 255 - mean b / 255) ^ 2 +
            (mean g / 255 - mean b / 255) ^ 2) / 3) * 2)%Q) as Hk.
  pose proof (proj2 (sizeRisk_bounds fileSize)) as Hs.
  lra.
Qed.

Lemma div_bounds (x c lo hi : Q) :
  (0 < c -> lo * c <= x -> x <= hi * c -> lo <= x / c /\ x / c <= hi)%Q.
Proof.
  intros Hc Hlo Hhi. split.
  - now apply Qle_shift_div_l.
  - now apply Qle_shift_div_r.
Qed.

(** X6: for well-formed statistics (channel means in [0, 255], standard
    deviations and the square root non-negative) the pixel-statistics
    score is at least 0.02, so a score of 0 only comes from the [catch]
    of [analyzeFrame]. *)
Theorem X6_pixel_score_at_least_002 sqrt fileSize r g b :
  (forall x, 0 <= sqrt x)%Q ->
  (0 <= mean r /\ mean r <= 255)%Q -> (0 <= mean g /\ mean g <= 255)%Q ->
  (0 <= mean b /\ mean b <= 255)%Q ->
  (0 <= stdev r)%Q -> (0 <= stdev g)%Q -> (0 <= stdev b)%Q ->
  (0.02 <= pixel_score sqrt fileSize r g b)%Q.
Proof.
  intros Hsqrt [Hr0 Hr1] [Hg0 Hg1] [Hb0 Hb1] Sr Sg Sb.
  unfold pixel_score. cbv zeta.
  eapply Qle_trans; [|apply Q.le_max_r].
  apply Q.min_glb; [discriminate|].
  assert (H255 : (0 < 255)%Q) by reflexivity.
  assert (H3 : (0 < 3)%Q) by reflexivity.
  destruct (div_bounds (mean r) 255 0 1 H255) as [R0 R1]; [lra..|].
  destruct (div_bounds (mean g) 255 0 1 H255) as [G0 G1]; [lra..|].
  destruct (div_bounds (mean b) 255 0 1 H255) as [B0 B1]; [lra..|].
  assert (SR : (0 <= stdev r / 255)%Q) by (apply Qle_shift_div_l; lra).
  assert (SG : (0 <= stdev g / 255)%Q) by (apply Qle_shift_div_l; lra).
  assert (SB : (0 <= stdev b / 255)%Q) by (apply Qle_shift_div_l; lra).
  set (rM := (mean r / 255)%Q) in *. set (gM := (mean g / 255)%Q) in *.
  set (bM := (mean b / 255)%Q) in *.
  set (rS := (stdev r / 255)%Q) in *. set (gS := (stdev g / 255)%Q) in *.
  set (bS := (stdev b / 255)%Q) in *.
  destruct (div_bounds (rM + gM + bM) 3 0 1 H3) as [M0 M1]; [lra..|].
  assert (C0 : (0 <= (rS + gS + bS) / 3)%Q) by (apply Qle_shift_div_l; lra).
  set (brightness := ((rM + gM + bM) / 3)%Q) in *.
  set (contrast := ((rS + gS + bS) / 3)%Q) in *.
  assert (Habs : (Qabs (brightness - 0.5) <= 0.5)%Q).
  { apply Qabs_Qle_condition. split; lra. }
  assert (Hc : (0 <= Qmin 1 (contrast * 2))%Q).
  { apply Q.min_glb; [discriminate|]. lra. }
  set (cv := (((rM - gM) ^ 2 + (rM - bM) ^ 2 + (gM - bM) ^ 2) / 3)%Q).
  assert (Hk : (0 <= Qmin 1 (sqrt cv * 2))%Q).
  { apply Q.min_glb; [discriminate|]. specialize (Hsqrt cv). lra. }
  pose proof (proj1 (sizeRisk_bounds fileSize)) as Hs.
  lra.
Qed.

Lemma X6_witness :
  (0.02 <= pixel_score Qabs 60000
             {| mean := 128; stdev := 60 |} {| mean := 100; stdev := 50 |}
             {| mean := 30; stdev := 40 |})%Q.
Proof.
  apply X6_pixel_score_at_least_002.
  - apply Qabs_nonneg.
  - split; vm_compute; discriminate.
  - split; vm_compute; discriminate.
  - split; vm_compute; discriminate.
  - vm_compute; discriminate.
  - vm_compute; discriminate.
  - vm_compute; discriminate.
Defined.

(** X7: the file-size-only scorer either fails to read the frame (score
    0, no random number drawn, state untouched) or draws exactly one
    random number and, for a draw in [[0, 1)], scores in [[0.05, 0.3)]. *)
Theorem X7_filesize_score_cases (e : env) (p : path) (st : state) :
  random_in_range e ->
  FileSize.analyzeFrame e p st = (Ok 0%Q, st) \/
  exists s, FileSize.analyzeFrame e p st
            = (Ok s, with_draws (S (draws st)) st) /\
            (0.05 <= s /\ s < 0.3)%Q.
Proof.
  intros Hr.
  unfold FileSize.analyzeFrame, FileSize.analyzeFrame_try, try_catch, bind.
  destruct (stat_cases e p st) as [[msg ->]|(f & _ & ->)]; [now left|].
  right. unfold random, ret. eexists. split; [reflexivity|].
  destruct (Hr (draws st)) as [H0 H1].
  set (r := Math_random e (draws st)) in *. split.
  - apply Q.min_glb; [discriminate|]. destruct (size f <? 1000); lra.
  - eapply Qle_lt_trans; [apply Q.le_min_r|].
    destruct (size f <? 1000); lra.
Qed.

Lemma X7_witness :
  random_in_range env_ok /\
  exists s, FileSize.analyzeFrame env_ok
              (path_join sample_tempDir "frame_00:00:00.jpg")
              sample_state_with_frame
            = (Ok s, with_draws 1 sample_state_with_frame) /\
            (0.05 <= s /\ s < 0.3)%Q.
Proof.
  assert (Hr : random_in_range env_ok).
  { intros n. split; [discriminate|reflexivity]. }
  split; [exact Hr|].
  destruct (X7_filesize_score_cases env_ok
              (path_join sample_tempDir "frame_00:00:00.jpg")
              sample_state_with_frame Hr) as [H|H].
  - vm_compute in H. discriminate.
  - exact H.
Defined.

(** ** Aggregation *)

(** X8: one frame above the maximum threshold is enough: the verdict is
    [flagged] whatever the other scores are. *)
Theorem X8_one_high_score_flags (svc : service) (scores : list Q) :
  Exists (fun s => max_threshold svc < s)%Q scores ->
  aggregate svc scores = flagged.
Proof. apply flagged_by_max. Qed.

Lemma X8_witness :
  aggregate filesize_service [0.1; 0.75; 0.1]%Q = flagged.
Proof.
  apply X8_one_high_score_flags. right. left.
  apply Qnot_le_lt. intros H. apply Qle_bool_iff in H.
  vm_compute in H. discriminate.
Defined.

(** ** Metadata *)

(** X11: [getVideoMetadata] never throws and leaves the state alone; the
    duration it reports is 0 when the probe fails or the duration field
    is absent, [NaN] when the probe reports the duration as text (an
    unknown duration), and otherwise the probed duration rounded to the
    nearest second, halves upwards. *)
Theorem X11_metadata_duration_rounded (e : env) (videoPath : string)
    (st : state) :
  exists d, getVideoMetadata e videoPath st = (Ok d, st) /\
    (forall msg, ffprobe e videoPath = Err msg -> d = whole 0) /\
    (ffprobe e videoPath = Ok duration_absent -> d = whole 0) /\
    (ffprobe e videoPath = Ok duration_text -> d = NaN) /\
    (forall D, ffprobe e videoPath = Ok (duration_number D) ->
       exists n, d = whole n /\
         (inject_Z n <= D + (1 # 2) /\ D + (1 # 2) < inject_Z n + 1)%Q).
Proof.
  unfold getVideoMetadata.
  destruct (ffprobe e videoPath) as [[|D|]|msg]; eexists;
    (split; [reflexivity|]);
    (split; [intros ? ?; first [discriminate|reflexivity]|]);
    (split; [intros ?; first [discriminate|reflexivity]|]);
    (split; [intros ?; first [discriminate|reflexivity]|]);
    intros D' HD; try discriminate.
  injection HD as <-.
  destruct (duration_or_zero_some D) as (d & Hd & Ed). rewrite Hd.
  eexists. split; [reflexivity|]. unfold Math_round. rewrite Ed.
  split; [apply Qfloor_le|].
  pose proof (Qlt_floor (D + (1 # 2))) as H.
  rewrite inject_Z_plus in H. exact H.
Qed.

Lemma X11_witness :
  exists d, getVideoMetadata env_ok "uploads/t1/clip.mp4" sample_state
            = (Ok d, sample_state) /\ d = whole 12.
Proof.
  destruct (X11_metadata_duration_rounded env_ok "uploads/t1/clip.mp4"
              sample_state) as (d & E & _).
  exists d. split; [exact E|].
  vm_compute in E. now injection E as <-.
Defined.

(** ** Extraction: what a successful call leaves behind *)

Lemma with_fs_with_fs f g st : with_fs f (with_fs g st) = with_fs f st.
Proof. reflexivity. Qed.

Lemma with_missing_lookup dirs (f : gmap string (gmap string file)) k :
  with_missing dirs f !! k =
  match f !! k with
  | Some x => Some x
  | None => if decide (k ∈ dirs) then Some ∅ else None
  end.
Proof.
  unfold with_missing. destruct (f !! k) as [x|] eqn:E.
  - now apply lookup_union_Some_l.
  - rewrite lookup_union_r by exact E.
    destruct (decide (k ∈ dirs)) as [Hin|Hout].
    + apply lookup_gset_to_gmap_Some. split; [|reflexivity].
      now apply elem_of_list_to_set.
    + apply lookup_gset_to_gmap_None. now rewrite elem_of_list_to_set.
Qed.

Lemma with_missing_lookup_kept dirs (f : gmap string (gmap string file)) k x :
  f !! k = Some x -> with_missing dirs f !! k = Some x.
Proof. intros H. unfold with_missing. now apply lookup_union_Some_l. Qed.

Lemma with_missing_lookup_new dirs (f : gmap string (gmap string file)) k :
  f !! k = None -> k ∈ dirs -> with_missing dirs f !! k = Some ∅.
Proof.
  intros H Hin. unfold with_missing. rewrite lookup_union_r by exact H.
  apply lookup_gset_to_gmap_Some. split; [|reflexivity].
  now apply elem_of_list_to_set.
Qed.


Lemma fs_after_mkdir_there dir (f : gmap string (gmap string file)) :
  f !! dir = None -> fs_after_mkdir dir f !! dir = Some ∅.
Proof.
  intros H. unfold fs_after_mkdir. rewrite H.
  apply with_missing_lookup_new; [exact H|].
  apply elem_of_app. right. apply list_elem_of_singleton. reflexivity.
Qed.

(** A successful extraction, read backwards: the probe and the decoder
    succeeded, the folder holds what the decoder wrote over what was
    there, and the frames are the [.jpg] entries of the folder. *)
Lemma extractFrames_ok_inv cap e videoPath outputDir interval st frames st1 :
  extractFrames cap e videoPath outputDir interval st = (Ok frames, st1) ->
  exists probed written,
    ffprobe e videoPath = Ok probed /\
    screenshots e videoPath (timestamps cap probed interval)
      = (written, None) /\
    let d := folder_after written (fs st !! outputDir) in
    st1 = with_fs (<[outputDir := d]> (fs_after_mkdir outputDir (fs st))) st /\
    frames = jpg_paths outputDir d.
Proof.
  unfold extractFrames, bind at 1, existsSync, fs_after_mkdir.
  destruct (fs st !! outputDir) as [d0|] eqn:Hd.
  - rewrite bool_decide_eq_true_2 by eauto. simpl negb. cbv iota.
    unfold bind at 1, ret at 1. unfold bind at 1.
    unfold rethrow at 1, try_catch, ffprobe_call.
    destruct (ffprobe e videoPath) as [probed|msg];
      [|unfold throw; discriminate].
    unfold bind at 1, rethrow at 1, try_catch, ffmpeg_screenshots.
    destruct (screenshots e videoPath _) as [written err] eqn:Hs. rewrite Hd.
    destruct err as [msg|]; [unfold throw; discriminate|].
    unfold bind, rethrow, try_catch, readdir, bind, guard_refusal.
    destruct (os_refuses e (op_readdir outputDir));
      [unfold throw; discriminate|].
    unfold ret. cbn [fs with_fs]. rewrite lookup_insert_eq.
    intros [= <- <-]. exists probed, written.
    split; [reflexivity|]. split; [exact Hs|]. split; reflexivity.
  - rewrite bool_decide_eq_false_2 by (intros [? ?]; discriminate).
    simpl negb. cbv iota. unfold bind at 1, mkdirSync, bind, guard_refusal.
    destruct (os_refuses e (op_mkdir outputDir));
      [unfold throw; discriminate|].
    unfold ret at 1. rewrite Hd.
    unfold rethrow at 1, try_catch, ffprobe_call.
    destruct (ffprobe e videoPath) as [probed|msg];
      [|unfold throw; discriminate].
    unfold rethrow at 1, try_catch, ffmpeg_screenshots.
    destruct (screenshots e videoPath _) as [written err] eqn:Hs.
    cbn [fs with_fs].
    pose proof (fs_after_mkdir_there outputDir (fs st) Hd) as Hthere.
    unfold fs_after_mkdir in Hthere. rewrite Hd in Hthere. rewrite Hthere.
    destruct err as [msg|]; [unfold throw; discriminate|].
    unfold rethrow, try_catch, readdir, bind, guard_refusal.
    destruct (os_refuses e (op_readdir outputDir));
      [unfold throw; discriminate|].
    unfold ret. cbn [fs with_fs]. rewrite lookup_insert_eq.
    intros [= <- <-]. exists probed, written.
    split; [reflexivity|]. split; [exact Hs|]. split; reflexivity.
Qed.

(** The forward reading: with a probe and a decoder that succeed and an
    operating system that lets the folder be created and listed,
    extraction succeeds. *)
Lemma extractFrames_ok cap e videoPath outputDir interval st probed written :
  os_refuses e (op_mkdir outputDir) = None ->
  os_refuses e (op_readdir outputDir) = None ->
  ffprobe e videoPath = Ok probed ->
  screenshots e videoPath (timestamps cap probed interval) = (written, None) ->
  let d := folder_after written (fs st !! outputDir) in
  extractFrames cap e videoPath outputDir interval st =
  (Ok (jpg_paths outputDir d),
   with_fs (<[outputDir := d]> (fs_after_mkdir outputDir (fs st))) st).
Proof.
  intros Hmk Hrd Hp Hs.
  unfold extractFrames, bind at 1, existsSync, fs_after_mkdir.
  destruct (fs st !! outputDir) as [d0|] eqn:Hd.
  - rewrite bool_decide_eq_true_2 by eauto. simpl negb. cbv iota.
    unfold bind at 1, ret at 1. unfold bind at 1.
    unfold rethrow at 1, try_catch, ffprobe_call. rewrite Hp.
    unfold bind at 1, rethrow at 1, try_catch, ffmpeg_screenshots.
    rewrite Hs, Hd.
    unfold bind, rethrow, try_catch, readdir, bind, guard_refusal.
    rewrite Hrd. unfold ret. cbn [fs with_fs]. rewrite lookup_insert_eq.
    reflexivity.
  - rewrite bool_decide_eq_false_2 by (intros [? ?]; discriminate).
    simpl negb. cbv iota. unfold bind at 1, mkdirSync, bind, guard_refusal.
    rewrite Hmk. unfold ret at 1. rewrite Hd.
    unfold rethrow at 1, try_catch, ffprobe_call. rewrite Hp.
    unfold rethrow at 1, try_catch, ffmpeg_screenshots. rewrite Hs.
    cbn [fs with_fs].
    pose proof (fs_after_mkdir_there outputDir (fs st) Hd) as Hthere.
    unfold fs_after_mkdir in Hthere. rewrite Hd in Hthere. rewrite Hthere.
    unfold rethrow, try_catch, readdir, bind, guard_refusal.
    rewrite Hrd. unfold ret. cbn [fs with_fs]. rewrite lookup_insert_eq.
    reflexivity.
Qed.

Lemma extractFrames_fst_inv cap e videoPath outputDir interval st frames :
  fst (extractFrames cap e videoPath outputDir interval st) = Ok frames ->
  exists probed written,
    ffprobe e videoPath = Ok probed /\
    screenshots e videoPath (timestamps cap probed interval)
      = (written, None) /\
    let d := folder_after written (fs st !! outputDir) in
    extractFrames cap e videoPath outputDir interval st
      = (Ok frames,
         with_fs (<[outputDir := d]> (fs_after_mkdir outputDir (fs st))) st) /\
    frames = jpg_paths outputDir d.
Proof.
  destruct (extractFrames cap e videoPath outputDir interval st)
    as [r st1] eqn:E. simpl. intros ->.
  destruct (extractFrames_ok_inv _ _ _ _ _ _ _ _ E)
    as (probed & written & Hp & Hs & -> & Hf).
  exists probed, written. auto.
Qed.

Lemma jpg_paths_spec (dir : string) (d : gmap string file) (p : path) :
  p ∈ jpg_paths dir d <->
  exists f, p = path_join dir f /\ endsWith f ".jpg" = true /\
            is_Some (d !! f).
Proof.
  unfold jpg_paths.
  change (map (path_join dir) ?l) with (path_join dir <$> l).
  rewrite list_elem_of_fmap. split.
  - intros (f & -> & Hin). apply list_elem_of_filter in Hin as [Hj Hk].
    exists f. split; [reflexivity|]. split.
    + now apply Is_true_true.
    + now apply listing_spec.
  - intros (f & -> & Hj & Hk). exists f. split; [reflexivity|].
    apply list_elem_of_filter. split.
    + now apply Is_true_true.
    + now apply listing_spec.
Qed.

Lemma jpg_paths_NoDup (dir : string) (d : gmap string file) :
  NoDup (jpg_paths dir d).
Proof.
  unfold jpg_paths.
  change (map (path_join dir) ?l) with (path_join dir <$> l).
  apply NoDup_fmap_2; [intros x y [= ->]; reflexivity|].
  apply NoDup_filter. apply NoDup_fst_map_to_list.
Qed.

(** X12: the paths a successful extraction returns are, without
    repetition, exactly the entries of the output folder whose name ends
    in [.jpg]; the folder exists afterwards. *)
Theorem X12_frames_are_the_jpg_entries
    cap e videoPath outputDir interval st frames :
  fst (extractFrames cap e videoPath outputDir interval st) = Ok frames ->
  NoDup frames /\
  exists d,
    fs (snd (extractFrames cap e videoPath outputDir interval st))
      !! outputDir = Some d /\
    forall p, p ∈ frames <->
      exists f, p = path_join outputDir f /\ endsWith f ".jpg" = true /\
                is_Some (d !! f).
Proof.
  intros HE.
  destruct (extractFrames_fst_inv _ _ _ _ _ _ _ HE)
    as (probed & written & _ & _ & E & ->).
  split; [apply jpg_paths_NoDup|].
  rewrite E. eexists. split; [cbn [snd fs with_fs]; apply lookup_insert_eq|].
  apply jpg_paths_spec.
Qed.

Lemma X12_witness :
  exists frames,
    fst (extractFrames 30 env_frame_and_log "uploads/t1/clip.mp4"
           sample_tempDir 5 sample_state) = Ok frames /\
    NoDup frames /\
    path_join sample_tempDir "ffmpeg.log" ∉ frames.
Proof.
  destruct (fst (extractFrames 30 env_frame_and_log "uploads/t1/clip.mp4"
                   sample_tempDir 5 sample_state)) as [frames|msg] eqn:E;
    [|vm_compute in E; discriminate].
  exists frames. split; [reflexivity|].
  destruct (X12_frames_are_the_jpg_entries _ _ _ _ _ _ _ E)
    as (Hnd & d & _ & Hin).
  split; [exact Hnd|].
  intros Hlog. apply Hin in Hlog as (f & [= <-] & Hj & _).
  vm_compute in Hj. discriminate.
Defined.

(** X13: a [.jpg] file that is already in the output folder when
    extraction starts (a leftover of an earlier run under the same name)
    is returned as a frame of this run. *)
Theorem X13_stale_jpg_is_returned
    cap e videoPath outputDir interval st frames d0 f x :
  fs st !! outputDir = Some d0 -> d0 !! f = Some x ->
  endsWith f ".jpg" = true ->
  fst (extractFrames cap e videoPath outputDir interval st) = Ok frames ->
  path_join outputDir f ∈ frames.
Proof.
  intros Hd Hf Hj HE.
  destruct (extractFrames_fst_inv _ _ _ _ _ _ _ HE)
    as (probed & written & _ & _ & _ & ->).
  apply jpg_paths_spec. exists f. split; [reflexivity|]. split; [exact Hj|].
  unfold folder_after. rewrite Hd. simpl.
  apply lookup_union_is_Some. right. eauto.
Qed.

Lemma X13_witness :
  exists frames,
    fst (extractFrames 30 env_ok "uploads/t1/clip.mp4"
           sample_tempDir 5 sample_state_stale) = Ok frames /\
    path_join sample_tempDir "old_frame.jpg" ∈ frames.
Proof.
  destruct (fst (extractFrames 30 env_ok "uploads/t1/clip.mp4"
                   sample_tempDir 5 sample_state_stale))
    as [frames|msg] eqn:E; [|vm_compute in E; discriminate].
  exists frames. split; [reflexivity|].
  apply (X13_stale_jpg_is_returned 30 env_ok "uploads/t1/clip.mp4"
           sample_tempDir 5 sample_state_stale frames
           {[ "old_frame.jpg" := sample_frame 1000 ]}
           "old_frame.jpg" (sample_frame 1000)).
  - vm_compute. reflexivity.
  - vm_compute. reflexivity.
  - vm_compute. reflexivity.
  - exact E.
Defined.

(** ** Relations kept by every step *)

Section Preservation.

Context (R : relation state) `{!PreOrder R}.

Lemma preserves_ret {A} (a : A) : preserves R (ret a).
Proof. intros st. simpl. reflexivity. Qed.

Lemma preserves_throw {A} (msg : string) : preserves R (@throw A msg).
Proof. intros st. simpl. reflexivity. Qed.

Lemma preserves_guard (r : option string) : preserves R (guard_refusal r).
Proof. destruct r; [apply preserves_throw|apply preserves_ret]. Qed.

Lemma preserves_bind_ok {A B} (m : M A) (k : A -> M B) :
  preserves R m ->
  (forall a st st', m st = (Ok a, st') -> preserves R (k a)) ->
  preserves R (bind m k).
Proof.
  intros Hm Hk st. unfold bind. specialize (Hm st).
  destruct (m st) as [[a|msg] st1] eqn:E; simpl in *; [|exact Hm].
  trans st1; [exact Hm|]. eapply Hk, E.
Qed.

Lemma preserves_bind {A B} (m : M A) (k : A -> M B) :
  preserves R m -> (forall a, preserves R (k a)) -> preserves R (bind m k).
Proof. intros Hm Hk. apply preserves_bind_ok; auto. Qed.

Lemma preserves_try_catch {A} (m : M A) (h : string -> M A) :
  preserves R m -> (forall msg, preserves R (h msg)) ->
  preserves R (try_catch m h).
Proof.
  intros Hm Hh st. unfold try_catch. specialize (Hm st).
  destruct (m st) as [[a|msg] st1]; simpl in *; [exact Hm|].
  trans st1; [exact Hm|apply Hh].
Qed.

Lemma preserves_for_of {A} (xs : list A) (body : A -> M unit) :
  (forall x, x ∈ xs -> preserves R (body x)) -> preserves R (for_of xs body).
Proof.
  induction xs as [|x xs IH]; intros Hb; simpl.
  - apply preserves_ret.
  - apply preserves_bind.
    + apply Hb. left.
    + intros _. apply IH. intros y Hy. apply Hb. now right.
Qed.

Lemma preserves_for_push {A B} (xs : list A) (f : A -> M B) :
  (forall x, preserves R (f x)) -> preserves R (for_push xs f).
Proof.
  intros Hf. induction xs as [|x xs IH]; simpl.
  - apply preserves_ret.
  - apply preserves_bind; [auto|]. intros y.
    apply preserves_bind; [auto|]. intros ys. apply preserves_ret.
Qed.

End Preservation.

#[local] Instance fs_outside_preorder P A : PreOrder (fs_outside P A).
Proof.
  split.
  - intros st d _. left. reflexivity.
  - intros a b c H1 H2 d Hd.
    destruct (H1 d Hd) as [E1|(HA & E1 & E1')];
      destruct (H2 d Hd) as [E2|(HA' & E2 & E2')].
    + left. congruence.
    + right. split; [exact HA'|]. split; congruence.
    + right. split; [exact HA|]. split; congruence.
    + congruence.
Qed.

Lemma fs_outside_of_eq P A st st' : fs st' = fs st -> fs_outside P A st st'.
Proof. intros E d _. left. now rewrite E. Qed.

Lemma fs_outside_unchanged P st st' d :
  fs_outside P [] st st' -> ~ P d -> fs st' !! d = fs st !! d.
Proof.
  intros H Hd. destruct (H d Hd) as [E|(Hin & _)]; [exact E|].
  now apply not_elem_of_nil in Hin.
Qed.

Lemma fs_outside_nothing st st' :
  fs_outside (fun _ => False) [] st st' -> fs st' = fs st.
Proof.
  intros H. apply map_eq. intros d.
  apply (fs_outside_unchanged _ _ _ _ H). tauto.
Qed.

#[local] Instance no_file_lost_preorder : PreOrder no_file_lost.
Proof.
  split.
  - intros st p H. exact H.
  - intros a b c H1 H2 p Hp. apply H2, H1, Hp.
Qed.

Lemma no_file_lost_of_eq st st' : fs st' = fs st -> no_file_lost st st'.
Proof. intros E p. unfold lookup_file. now rewrite E. Qed.

(** The steps that leave the file system as it is. *)
Ltac keeps_fs :=
  intros ?;
  unfold existsSync, readdir, stat, sharp_stats, ffprobe_call, random,
    Video_findOne, updateVideoStatus, getVideoMetadata, new_job, queue_set,
    queue_delete, set_status, set_progress, set_safetyStatus, emit,
    bind, guard_refusal, throw, ret;
  repeat case_match; simplify_eq/=; reflexivity.

Lemma keeps_fs_existsSync dir st : fs (snd (existsSync dir st)) = fs st.
Proof. revert st. keeps_fs. Qed.
Lemma keeps_fs_readdir e dir st : fs (snd (readdir e dir st)) = fs st.
Proof. revert st. keeps_fs. Qed.
Lemma keeps_fs_stat e p st : fs (snd (stat e p st)) = fs st.
Proof. revert st. keeps_fs. Qed.
Lemma keeps_fs_sharp_stats e p st : fs (snd (sharp_stats e p st)) = fs st.
Proof. revert st. keeps_fs. Qed.
Lemma keeps_fs_ffprobe_call e v st : fs (snd (ffprobe_call e v st)) = fs st.
Proof. revert st. keeps_fs. Qed.
Lemma keeps_fs_random e st : fs (snd (random e st)) = fs st.
Proof. revert st. keeps_fs. Qed.
Lemma keeps_fs_Video_findOne e i t st :
  fs (snd (Video_findOne e i t st)) = fs st.
Proof. revert st. keeps_fs. Qed.
Lemma keeps_fs_updateVideoStatus e i t u st :
  fs (snd (updateVideoStatus e i t u st)) = fs st.
Proof. revert st. keeps_fs. Qed.
Lemma keeps_fs_getVideoMetadata e p st :
  fs (snd (getVideoMetadata e p st)) = fs st.
Proof. revert st. keeps_fs. Qed.
Lemma keeps_fs_new_job j st : fs (snd (new_job j st)) = fs st.
Proof. revert st. keeps_fs. Qed.
Lemma keeps_fs_queue_set i j st : fs (snd (queue_set i j st)) = fs st.
Proof. revert st. keeps_fs. Qed.
Lemma keeps_fs_queue_delete i st : fs (snd (queue_delete i st)) = fs st.
Proof. revert st. keeps_fs. Qed.
Lemma keeps_fs_set_status j s st : fs (snd (set_status j s st)) = fs st.
Proof. revert st. keeps_fs. Qed.
Lemma keeps_fs_set_progress j p st : fs (snd (set_progress j p st)) = fs st.
Proof. revert st. keeps_fs. Qed.
Lemma keeps_fs_set_safetyStatus j v st :
  fs (snd (set_safetyStatus j v st)) = fs st.
Proof. revert st. keeps_fs. Qed.
Lemma keeps_fs_emit io t ev st : fs (snd (emit io t ev st)) = fs st.
Proof. revert st. keeps_fs. Qed.

Create HintDb keepsfs discriminated.
#[local] Hint Resolve keeps_fs_existsSync keeps_fs_readdir keeps_fs_stat
  keeps_fs_sharp_stats keeps_fs_ffprobe_call keeps_fs_random
  keeps_fs_Video_findOne keeps_fs_updateVideoStatus keeps_fs_getVideoMetadata
  keeps_fs_new_job keeps_fs_queue_set keeps_fs_queue_delete
  keeps_fs_set_status keeps_fs_set_progress keeps_fs_set_safetyStatus
  keeps_fs_emit : keepsfs.

(** The steps that write below one directory. *)
Ltac writes_below :=
  intros ? ? ?;
  unfold unlink, rmdirSync, ffmpeg_screenshots, bind,
    guard_refusal, throw, ret;
  repeat case_match; simplify_eq/=; left;
  rewrite ?lookup_insert_ne, ?lookup_delete_ne by congruence; reflexivity.

(** The recursive [mkdirSync] writes the directory and creates, empty,
    the ancestors that are missing. *)
Lemma fso_mkdirSync (P : string -> Prop) A e dir :
  P dir -> ancestors dir ⊆ A -> preserves (fs_outside P A) (mkdirSync e dir).
Proof.
  intros HP HA st d Hd.
  unfold mkdirSync, bind, guard_refusal, throw, ret.
  destruct (os_refuses e _); [left; reflexivity|].
  destruct (fs st !! dir) eqn:Hdir; [left; reflexivity|].
  cbn [snd fs with_fs]. rewrite with_missing_lookup.
  destruct (fs st !! d) eqn:E; [left; reflexivity|].
  destruct (decide (d ∈ (ancestors dir ++ [dir])%list)) as [Hin|Hout];
    [|left; reflexivity].
  right. split; [|split; reflexivity].
  apply elem_of_app in Hin as [Hin|Hin]; [apply HA, Hin|].
  apply list_elem_of_singleton in Hin. subst d. contradiction.
Qed.

Lemma fso_unlink (P : string -> Prop) A e p :
  P (fst p) -> preserves (fs_outside P A) (unlink e p).
Proof. intros HP. writes_below. Qed.

Lemma fso_rmdirSync (P : string -> Prop) A e dir :
  P dir -> preserves (fs_outside P A) (rmdirSync e dir).
Proof. intros HP. writes_below. Qed.

Lemma fso_ffmpeg_screenshots (P : string -> Prop) A e v ts dir :
  P dir -> preserves (fs_outside P A) (ffmpeg_screenshots e v ts dir).
Proof. intros HP. writes_below. Qed.

Ltac tc := try lazymatch goal with |- PreOrder _ => apply _ end.

(** One step through the structure of a program; [prim] closes the
    goals about single operations. *)
Ltac pres_step prim :=
  lazymatch goal with
  | |- PreOrder _ => apply _
  | |- forall _, _ => intro
  | |- preserves _ (bind _ _) => apply preserves_bind
  | |- preserves _ (try_catch _ _) => apply preserves_try_catch
  | |- preserves _ (rethrow _ _) => apply preserves_try_catch
  | |- preserves _ (swallow _) => apply preserves_try_catch
  | |- preserves _ (for_push _ _) => apply preserves_for_push
  | |- preserves _ (ret _) => apply preserves_ret
  | |- preserves _ (throw _) => apply preserves_throw
  | |- preserves _ (if ?b then _ else _) => destruct b
  | |- preserves _ (match ?x with _ => _ end) => destruct x
  | |- preserves _ _ => prim
  end.

Ltac fso_prim :=
  lazymatch goal with
  | |- preserves (fs_outside _ _) (mkdirSync _ _) =>
      apply fso_mkdirSync; solve [auto]
  | |- preserves (fs_outside _ _) (unlink _ _) =>
      apply fso_unlink; solve [auto]
  | |- preserves (fs_outside _ _) (rmdirSync _ _) =>
      apply fso_rmdirSync; solve [auto]
  | |- preserves (fs_outside _ _) (ffmpeg_screenshots _ _ _ _) =>
      apply fso_ffmpeg_screenshots; solve [auto]
  | |- preserves (fs_outside _ _) _ =>
      solve [auto
            |intros ?; apply fs_outside_of_eq; auto with keepsfs]
  end.

Ltac fso_step := pres_step ltac:(idtac; fso_prim).


Lemma fso_analyzeFrame (P : string -> Prop) A (v : variant) e p :
  preserves (fs_outside P A) (analyzeFrame (service_of v) e p).
Proof.
  destruct v; simpl;
    unfold PixelStats.analyzeFrame, PixelStats.analyzeFrame_try,
      FileSize.analyzeFrame, FileSize.analyzeFrame_try;
    repeat fso_step.
Qed.

(** Scoring reads files and never writes any. *)
Lemma scoring_keeps_fs (v : variant) e frames st :
  fs (snd (for_push frames (analyzeFrame (service_of v) e) st)) = fs st.
Proof.
  apply fs_outside_nothing.
  apply preserves_for_push; tc.
  intros p. apply fso_analyzeFrame.
Qed.




(** ** Footprint on the file system *)



Lemma nfl_mkdirSync e dir : preserves no_file_lost (mkdirSync e dir).
Proof.
  intros st. unfold mkdirSync, bind, guard_refusal, throw, ret.
  destruct (os_refuses e _); [apply no_file_lost_of_eq; reflexivity|].
  destruct (fs st !! dir) eqn:Hd; [apply no_file_lost_of_eq; reflexivity|].
  intros p [x Hx]. unfold lookup_file in *. cbn [snd fs with_fs].
  destruct (fs st !! p.1) as [dd|] eqn:E; [|discriminate Hx].
  rewrite (with_missing_lookup_kept _ _ _ _ E). eauto.
Qed.

Lemma nfl_ffmpeg_screenshots e v ts dir :
  preserves no_file_lost (ffmpeg_screenshots e v ts dir).
Proof.
  intros st. unfold ffmpeg_screenshots.
  destruct (screenshots e v ts) as [written err].
  destruct (fs st !! dir) as [d|] eqn:Hd;
    [|apply no_file_lost_of_eq; reflexivity].
  assert (H : no_file_lost st
                (with_fs (<[dir := list_to_map written ∪ d]> (fs st)) st)).
  { intros p [x Hx]. unfold lookup_file in *. simpl.
    destruct (decide (p.1 = dir)) as [E|Hne].
    - rewrite E in *. rewrite Hd in Hx. simpl in Hx.
      rewrite lookup_insert_eq. simpl.
      apply lookup_union_is_Some. right. eauto.
    - rewrite lookup_insert_ne by congruence. eauto. }
  destruct err; exact H.
Qed.

Ltac nfl_prim :=
  lazymatch goal with
  | |- preserves no_file_lost (mkdirSync _ _) => apply nfl_mkdirSync
  | |- preserves no_file_lost (ffmpeg_screenshots _ _ _ _) =>
      apply nfl_ffmpeg_screenshots
  | |- preserves no_file_lost _ =>
      solve [intros ?; apply no_file_lost_of_eq; auto with keepsfs]
  end.

(** X15: frame extraction never removes a file: every path that names a
    file before the call names a file after it, whether the call
    succeeds or throws. *)
Theorem X15_extraction_deletes_nothing
    cap e videoPath outputDir interval st p :
  is_Some (lookup_file st p) ->
  is_Some (lookup_file
             (snd (extractFrames cap e videoPath outputDir interval st)) p).
Proof.
  revert p.
  change (no_file_lost st
            (snd (extractFrames cap e videoPath outputDir interval st))).
  revert st.
  change (preserves no_file_lost
            (extractFrames cap e videoPath outputDir interval)).
  unfold extractFrames. repeat pres_step ltac:(idtac; nfl_prim).
Qed.

Lemma X15_witness :
  is_Some (lookup_file
             (snd (extractFrames 30 env_ok "uploads/t1/clip.mp4"
                     sample_tempDir 5 sample_state_stale))
             (path_join sample_tempDir "old_frame.jpg")).
Proof.
  apply (X15_extraction_deletes_nothing 30 env_ok "uploads/t1/clip.mp4"
           sample_tempDir 5 sample_state_stale).
  vm_compute. eauto.
Defined.





(** ** The clean-up after a run with frames *)



Lemma scoring_total (v : variant) e frames st :
  exists scores st',
    for_push frames (analyzeFrame (service_of v) e) st = (Ok scores, st').
Proof.
  apply for_push_total. intros p s.
  destruct (analyzeFrame_ok v e p s) as (x & s' & E & _). eauto.
Qed.

(** A run with at least one frame: scoring leaves the files alone, every
    frame is passed to [unlink], and [rmdirSync] is the last step. *)
Lemma analyze_with_frames (v : variant) e tempDir videoPath st frames st1 :
  extractFrames (frame_cap (service_of v)) e videoPath tempDir 5 st
    = (Ok frames, st1) ->
  frames <> [] ->
  exists vd st2 st3,
    fs st2 = fs st1 /\
    for_of frames (fun p => swallow (unlink e p)) st2 = (Ok tt, st3) /\
    analyzeVideoSensitivity (service_of v) e tempDir videoPath st
    = (Ok vd, snd (swallow (rmdirSync e tempDir) st3)).
Proof.
  intros HE Hne.
  unfold analyzeVideoSensitivity, try_catch, analysis_try, bind. rewrite HE.
  assert (E0 : (length frames =? 0)%nat = false)
    by (destruct frames; [contradiction|reflexivity]).
  rewrite E0.
  destruct (scoring_total v e frames st1) as (scores & st2 & HS).
  rewrite HS.
  destruct (for_of_swallow_ok frames (unlink e) st2) as [st3 E3]. rewrite E3.
  destruct (swallow_ok (rmdirSync e tempDir) st3) as [st4 E4]. rewrite E4.
  unfold ret. eexists _, st2, st3.
  split; [|split; [exact E3|rewrite E4; reflexivity]].
  pose proof (scoring_keeps_fs v e frames st1) as H. rewrite HS in H. exact H.
Qed.










#[local] Instance file_kept_preorder p x : PreOrder (file_kept p x).
Proof.
  split.
  - intros st H. exact H.
  - intros a b c H1 H2 H. apply H2, H1, H.
Qed.

Lemma file_kept_of_eq p x st st' : fs st' = fs st -> file_kept p x st st'.
Proof. intros E. unfold file_kept, lookup_file. now rewrite E. Qed.

Lemma fk_unlink q x e p :
  p <> q -> preserves (file_kept q x) (unlink e p).
Proof.
  intros Hpq st. unfold unlink, bind, guard_refusal, throw, ret.
  destruct (os_refuses e _); [apply file_kept_of_eq; reflexivity|].
  destruct (fs st !! p.1) as [d|] eqn:Hd;
    [|apply file_kept_of_eq; reflexivity].
  destruct (d !! p.2) eqn:Hf; [|apply file_kept_of_eq; reflexivity].
  unfold file_kept, lookup_file. cbn [snd fs with_fs].
  destruct (decide (q.1 = p.1)) as [E|Hne].
  - rewrite E, Hd, lookup_insert_eq. simpl.
    rewrite lookup_delete_ne; [auto|].
    intros E2. apply Hpq. destruct p, q. simpl in *. congruence.
  - rewrite lookup_insert_ne by congruence. auto.
Qed.

Lemma fk_rmdirSync q x e dir : preserves (file_kept q x) (rmdirSync e dir).
Proof.
  intros st. unfold rmdirSync, bind, guard_refusal, throw, ret.
  destruct (os_refuses e _); [apply file_kept_of_eq; reflexivity|].
  destruct (fs st !! dir) as [d|] eqn:Hd;
    [|apply file_kept_of_eq; reflexivity].
  destruct (bool_decide (d = ∅)) eqn:He;
    [|apply file_kept_of_eq; reflexivity].
  apply bool_decide_eq_true_1 in He. subst d.
  unfold file_kept, lookup_file. cbn [snd fs with_fs].
  destruct (decide (q.1 = dir)) as [E|Hne].
  - rewrite E, Hd. simpl. rewrite lookup_empty. discriminate.
  - rewrite lookup_delete_ne by congruence. auto.
Qed.

(** X19: on the exit paths of the [try] block only the returned [.jpg]
    frames are deleted: a file of the temporary directory whose name
    does not end in [.jpg] is still there, unchanged, when the run
    returns (and the directory with it). *)
Theorem X19_other_files_stay_behind
    (v : variant) e tempDir videoPath st frames st1 f x :
  extractFrames (frame_cap (service_of v)) e videoPath tempDir 5 st
    = (Ok frames, st1) ->
  lookup_file st1 (path_join tempDir f) = Some x ->
  endsWith f ".jpg" = false ->
  lookup_file
    (snd (analyzeVideoSensitivity (service_of v) e tempDir videoPath st))
    (path_join tempDir f) = Some x.
Proof.
  intros HE Hx Hf.
  destruct frames as [|p0 frames0] eqn:Hfr.
  { rewrite (analyze_no_frames _ _ _ _ _ _ HE). exact Hx. }
  rewrite <- Hfr in HE.
  destruct (analyze_with_frames v e tempDir videoPath st frames st1 HE)
    as (vd & st2 & st3 & Hfs2 & Hloop & ->); [rewrite Hfr; discriminate|].
  cbn [snd].
  assert (H2 : lookup_file st2 (path_join tempDir f) = Some x)
    by (unfold lookup_file; rewrite Hfs2; exact Hx).
  assert (H3 : lookup_file st3 (path_join tempDir f) = Some x).
  { assert (Hbody : forall p, p ∈ frames ->
              preserves (file_kept (path_join tempDir f) x)
                        (swallow (unlink e p))).
    { intros p Hp. apply preserves_try_catch; tc;
        [|intros ?; apply preserves_ret; tc].
      apply fk_unlink.
      assert (HE' : fst (extractFrames (frame_cap (service_of v)) e videoPath
                           tempDir 5 st) = Ok frames) by now rewrite HE.
      destruct (extractFrames_fst_inv _ _ _ _ _ _ _ HE')
        as (probed & written & _ & _ & _ & Efr).
      rewrite Efr in Hp. apply jpg_paths_spec in Hp as (g & -> & Hg & _).
      intros [= ->]. rewrite Hf in Hg. discriminate. }
    pose proof (preserves_for_of (file_kept (path_join tempDir f) x) frames
                  (fun p => swallow (unlink e p)) Hbody st2) as Hl.
    rewrite Hloop in Hl. apply Hl, H2. }
  pose proof (preserves_try_catch (file_kept (path_join tempDir f) x)
                (rmdirSync e tempDir) (fun _ => ret tt)
                (fk_rmdirSync _ _ _ _)
                (fun _ => preserves_ret _ tt) st3) as Hr.
  apply Hr, H3.
Qed.

Lemma X19_witness :
  lookup_file
    (snd (analyzeVideoSensitivity (service_of PixelStatistics)
            env_frame_and_log sample_tempDir "uploads/t1/clip.mp4"
            sample_state))
    (path_join sample_tempDir "ffmpeg.log")
  = Some {| size := 10; image := Err "not an image" |}.
Proof.
  eapply (X19_other_files_stay_behind PixelStatistics env_frame_and_log
            sample_tempDir "uploads/t1/clip.mp4" sample_state).
  - vm_compute. reflexivity.
  - vm_compute. reflexivity.
  - vm_compute. reflexivity.
Defined.

(** X20: whatever the operating system answers to the [unlink] and
    [rmdir] requests of the clean-up, the run returns the same verdict,
    and it throws in neither case. *)
Theorem X20_cleanup_failures_never_change_verdict
    (v : variant) (f : fs_op -> option string) e tempDir videoPath st :
  exists vd,
    fst (analyzeVideoSensitivity (service_of v) (with_cleanup_refusals f e)
           tempDir videoPath st) = Ok vd /\
    fst (analyzeVideoSensitivity (service_of v) e tempDir videoPath st)
    = Ok vd.
Proof.
  destruct (analyze_total (service_of v) e tempDir videoPath st)
    as (vd & st' & E).
  exists vd. rewrite cleanup_refusals_never_change_verdict, E. auto.
Qed.

(** ** The orchestrator and the video collection *)

#[local] Instance others_untouched_preorder videoId tenantId :
  PreOrder (others_untouched videoId tenantId).
Proof.
  split.
  - intros st id w H _. exact H.
  - intros a b c H1 H2 id w Hw Hc. apply H2; [|exact Hc]. now apply H1.
Qed.

Lemma others_untouched_of_eq videoId tenantId st st' :
  videos st' = videos st -> others_untouched videoId tenantId st st'.
Proof. intros E id w Hw _. now rewrite E. Qed.

Lemma ou_updateVideoStatus e videoId tenantId u :
  preserves (others_untouched videoId tenantId)
    (updateVideoStatus e videoId tenantId u).
Proof.
  intros st. unfold updateVideoStatus, bind, guard_refusal, throw, ret.
  destruct (db_refuses e _); [apply others_untouched_of_eq; reflexivity|].
  destruct (videos st !! videoId) as [w0|] eqn:Hv;
    [|apply others_untouched_of_eq; reflexivity].
  destruct (String.eqb (v_tenantId w0) tenantId) eqn:Ht;
    [|apply others_untouched_of_eq; reflexivity].
  apply String.eqb_eq in Ht.
  intros id w Hw Hc. cbn [snd videos with_videos].
  destruct (decide (id = videoId)) as [->|Hne].
  - rewrite Hv in Hw. injection Hw as <-. destruct Hc; contradiction.
  - rewrite lookup_insert_ne by congruence. exact Hw.
Qed.

(** Case analysis of a single operation on an arbitrary state. *)
Ltac prim_cases :=
  intros ?;
  unfold existsSync, mkdirSync, readdir, unlink, rmdirSync, stat, sharp_stats,
    ffprobe_call, ffmpeg_screenshots, random, Video_findOne, getVideoMetadata,
    new_job, queue_set, queue_delete, set_status, set_progress,
    set_safetyStatus, emit, bind, guard_refusal, throw, ret;
  repeat case_match; simplify_eq/=.

Ltac ou_prim :=
  lazymatch goal with
  | |- preserves (others_untouched _ _) (updateVideoStatus _ _ _ _) =>
      apply ou_updateVideoStatus
  | |- preserves (others_untouched _ _) _ =>
      solve [auto
            |prim_cases; apply others_untouched_of_eq; reflexivity]
  end.

(** X22: a processing run for [videoId] in tenant [tenantId] changes no
    other document of the video collection: a document under another
    identifier, or one that belongs to another tenant, is the same
    after the run, whether the run completes or fails. *)
Theorem X22_run_touches_own_document_only
    (v : variant) e tempDir videoId tenantId io st id w :
  videos st !! id = Some w ->
  id <> videoId \/ v_tenantId w <> tenantId ->
  videos (snd (processVideo (service_of v) e tempDir videoId tenantId io st))
    !! id = Some w.
Proof.
  revert id w.
  change (others_untouched videoId tenantId st
            (snd (processVideo (service_of v) e tempDir videoId tenantId io
                    st))).
  revert st.
  change (preserves (others_untouched videoId tenantId)
            (processVideo (service_of v) e tempDir videoId tenantId io)).
  assert (HA : forall p, preserves (others_untouched videoId tenantId)
                 (analyzeVideoSensitivity (service_of v) e tempDir p)).
  { intros p st. apply others_untouched_of_eq.
    apply (files_only_analyzeVideoSensitivity v e tempDir p st). }
  unfold processVideo, processVideo_try, processVideo_catch.
  repeat pres_step ltac:(idtac; ou_prim).
Qed.

Lemma X22_witness :
  videos (snd (processVideo (service_of PixelStatistics) env_ok
                 sample_tempDir "v2" "t1" true sample_state_two_tenants))
    !! "v2"
  = Some {| v_tenantId := "t2"; v_storagePath := "t2/b.mp4";
            v_status := uploaded; v_safetyStatus := unknown;
            v_duration := None |}.
Proof.
  apply (X22_run_touches_own_document_only PixelStatistics env_ok
           sample_tempDir "v2" "t1" true sample_state_two_tenants "v2").
  - vm_compute. reflexivity.
  - right. discriminate.
Defined.

(** ** The events of a run *)

Ltac events_close before :=
  exists before; eexists;
  split; [reflexivity|];
  split; [repeat constructor|];
  split; [repeat constructor|reflexivity].

Ltac events_done :=
  cbn beta iota delta [fst snd]; run_pure;
  rewrite <- ?app_assoc; cbn [app];
  first
    [ solve [events_close (@nil (string * event))]
    | solve [eexists [_]; eexists;
             split; [reflexivity|];
             split; [repeat constructor|];
             split; [repeat constructor|reflexivity]]
    | solve [eexists [_; _]; eexists;
             split; [reflexivity|];
             split; [repeat constructor|];
             split; [repeat constructor|reflexivity]]
    | solve [eexists [_; _; _]; eexists;
             split; [reflexivity|];
             split; [repeat constructor|];
             split; [repeat constructor|reflexivity]]
    | solve [eexists [_; _; _; _]; eexists;
             split; [reflexivity|];
             split; [repeat constructor|];
             split; [repeat constructor|reflexivity]] ].

(** X23: with a socket server attached, every run appends to the event
    stream a sequence that ends in exactly one terminal event
    ([processing:completed] or [processing:failed]) preceded by
    non-terminal events only; all of them go to the room of the tenant
    and are about the video of the run. *)
Theorem X23_one_terminal_event_last
    (v : variant) e tempDir videoId tenantId st :
  exists before last,
    emitted (snd (processVideo (service_of v) e tempDir videoId tenantId
                    true st))
    = (emitted st ++ before ++ [last])%list /\
    Forall (fun re => fst re = "tenant:" ++ tenantId /\
                      event_videoId (snd re) = videoId)
           (before ++ [last]) /\
    Forall (fun re => is_terminal (snd re) = false) before /\
    is_terminal (snd last) = true.
Proof.
  unfold processVideo, try_catch, processVideo_try, processVideo_catch,
    swallow, try_catch, bind.
  run_pure.
  run_call.
  all: try (run_call; events_done).
  all: run_call.
  all: try (run_call; events_done).
  all: run_call.
  all: run_call.
  all: try (run_call; events_done).
  all: run_call.
  all: run_call.
  all: try (run_call; events_done).
  all: events_done.
Qed.

(** ** A run for a video that is not there *)

(** X24: when the collection holds no document with this identifier in
    this tenant, the run creates no job and changes no document, no
    file and no progress value; its only trace is one
    [processing:failed] event with the message [Video not found], sent
    when a socket server is attached. *)
Theorem X24_unknown_video_leaves_no_trace
    (svc : service) e tempDir videoId tenantId io st :
  db_refuses e (op_findOne videoId tenantId) = None ->
  (forall w, videos st !! videoId = Some w -> v_tenantId w <> tenantId) ->
  let st' := snd (processVideo svc e tempDir videoId tenantId io st) in
  videos st' = videos st /\ heap st' = heap st /\ fs st' = fs st /\
  progress_log st' = progress_log st /\
  processingQueue st' = delete videoId (processingQueue st) /\
  emitted st' =
    (emitted st ++
     if io then [(("tenant:" ++ tenantId)%string,
                  processing_failed videoId "Video not found")]
     else [])%list.
Proof.
  intros Hdb Hnone.
  assert (Hfind : Video_findOne e videoId tenantId st = (Ok None, st)).
  { unfold Video_findOne, bind, guard_refusal, ret. rewrite Hdb.
    destruct (videos st !! videoId) as [w|] eqn:Hw; [|reflexivity].
    destruct (String.eqb (v_tenantId w) tenantId) eqn:Ht; [|reflexivity].
    apply String.eqb_eq in Ht.
    first [now destruct (Hnone w eq_refl)|now destruct (Hnone w Hw)]. }
  assert (Hupd : forall u, exists r,
             updateVideoStatus e videoId tenantId u st = (r, st)).
  { intros u. unfold updateVideoStatus, bind, guard_refusal, throw, ret.
    destruct (db_refuses e (op_findOneAndUpdate _ _ _)); [eauto|].
    destruct (videos st !! videoId) as [w|] eqn:Hw; [|eauto].
    destruct (String.eqb (v_tenantId w) tenantId) eqn:Ht; [|eauto].
    apply String.eqb_eq in Ht.
    first [now destruct (Hnone w eq_refl)|now destruct (Hnone w Hw)]. }
  unfold processVideo, try_catch, processVideo_try, bind.
  rewrite Hfind. run_pure.
  unfold processVideo_catch, bind, swallow, try_catch.
  destruct (Hupd {| u_status := Some failed; u_safetyStatus := None;
                    u_duration := None |}) as [r ->].
  destruct r as [r|msg], io; run_pure; cbn [snd]; run_pure;
    rewrite ?app_nil_r; repeat split; reflexivity.
Qed.

Lemma X24_witness :
  let st' := snd (processVideo pixel_service env_ok sample_tempDir
                    "v1" "t2" true sample_state) in
  videos st' = videos sample_state /\ heap st' = heap sample_state /\
  fs st' = fs sample_state /\
  progress_log st' = progress_log sample_state /\
  processingQueue st' = delete "v1" (processingQueue sample_state) /\
  emitted st' =
    (emitted sample_state ++
     [("tenant:t2", processing_failed "v1" "Video not found")])%list.
Proof.
  apply (X24_unknown_video_leaves_no_trace pixel_service env_ok
           sample_tempDir "v1" "t2" true sample_state).
  - reflexivity.
  - intros w Hw. vm_compute in Hw. injection Hw as <-. discriminate.
Defined.

(** ** A run that completes *)

(** X25: when the database accepts every request (a [NaN] duration
    included) and the video exists in the tenant, the run ends with the
    document [processed], carrying the duration that [getVideoMetadata]
    reports (a whole number, or [NaN] when the probe gives the duration
    as text) and the verdict of the analysis on the files and the random
    source of the start;
    tenant and storage path are unchanged, and the last event, when a
    socket server is attached, is [processing:completed] with the same
    verdict and the same duration as the document. *)
Theorem X25_completed_run_stores_what_it_announces
    (v : variant) e tempDir videoId tenantId io st video :
  db_cooperates e ->
  videos st !! videoId = Some video -> v_tenantId video = tenantId ->
  let st' :=
    snd (processVideo (service_of v) e tempDir videoId tenantId io st) in
  exists vd d S,
    fst (getVideoMetadata e (getFilePath (v_storagePath video)) st) = Ok d /\
    fs S = fs st /\ draws S = draws st /\
    fst (analyzeVideoSensitivity (service_of v) e tempDir
           (getFilePath (v_storagePath video)) S) = Ok vd /\
    videos st' !! videoId =
      Some {| v_tenantId := v_tenantId video;
              v_storagePath := v_storagePath video;
              v_status := processed;
              v_safetyStatus := verdict vd;
              v_duration := Some d |} /\
    (io = true ->
     last (emitted st') =
       Some (("tenant:" ++ tenantId)%string,
             processing_completed videoId 100 vd d)).
Proof.
  intros Hdb Hv Ht.
  unfold processVideo, try_catch, processVideo_try, bind.
  rewrite (Video_findOne_found e videoId tenantId st video Hdb Hv Ht).
  destruct io; run_pure.
  all: run_update Hdb Ht.
  all: unfold getVideoMetadata;
    destruct (ffprobe e (getFilePath (v_storagePath video))) as [probed|m];
    run_pure.
  all: run_update Hdb Ht.
  all: match goal with
       | |- context [analyzeVideoSensitivity (service_of ?v) ?e ?d ?p ?S] =>
           pose (S0 := S);
           destruct (analyze_explicit v e d p S) as (vd & f & n & E);
           rewrite E
       end; run_pure.
  all: run_update Hdb Ht.
  all: cbn beta iota zeta delta [fst snd]; run_pure.
  all: exists vd; eexists; exists S0.
  all: split; [reflexivity|].
  all: split; [reflexivity|].
  all: split; [reflexivity|].
  all: split; [unfold S0; rewrite E; reflexivity|].
  all: split; [apply lookup_insert_eq|].
  all: first [intros _; apply last_snoc|discriminate].
Qed.

Lemma X25_witness :
  exists vd d,
    videos (snd (processVideo (service_of PixelStatistics) env_ok
                   sample_tempDir "v1" "t1" true sample_state)) !! "v1" =
      Some {| v_tenantId := "t1"; v_storagePath := "t1/clip.mp4";
              v_status := processed; v_safetyStatus := verdict vd;
              v_duration := Some d |} /\
    d = whole 12.
Proof.
  assert (Hdb : db_cooperates env_ok) by (intros op; reflexivity).
  assert (Hv : videos sample_state !! "v1" = Some sample_video)
    by (vm_compute; reflexivity).
  destruct (X25_completed_run_stores_what_it_announces PixelStatistics env_ok
              sample_tempDir "v1" "t1" true sample_state sample_video
              Hdb Hv eq_refl)
    as (vd & d & S & Hd & _ & _ & _ & Hrec & _).
  exists vd, d. split; [exact Hrec|].
  vm_compute in Hd. now injection Hd as <-.
Defined.

(** ** A run that fails *)

(** An update of the run's own document is refused by the database or
    applied. *)
Lemma updateVideoStatus_own e videoId tenantId u st w :
  videos st !! videoId = Some w -> v_tenantId w = tenantId ->
  (exists m, updateVideoStatus e videoId tenantId u st = (Err m, st)) \/
  updateVideoStatus e videoId tenantId u st =
  (Ok (Some (apply_updates u w)),
   with_videos (<[videoId := apply_updates u w]> (videos st)) st).
Proof.
  intros Hv Ht. unfold updateVideoStatus, bind, guard_refusal, throw, ret.
  destruct (db_refuses e (op_findOneAndUpdate _ _ _)); [left; eauto|].
  right. rewrite Hv, Ht, String.eqb_refl. reflexivity.
Qed.

Lemma Video_findOne_own e videoId tenantId st w :
  videos st !! videoId = Some w -> v_tenantId w = tenantId ->
  (exists m, Video_findOne e videoId tenantId st = (Err m, st)) \/
  Video_findOne e videoId tenantId st = (Ok (Some w), st).
Proof.
  intros Hv Ht. unfold Video_findOne, bind, guard_refusal, throw, ret.
  destruct (db_refuses e (op_findOne _ _)); [left; eauto|].
  right. rewrite Hv, Ht, String.eqb_refl. reflexivity.
Qed.

Ltac run_own_update Ht :=
  match goal with
  | |- context [updateVideoStatus ?e ?i ?t ?u ?S] =>
      let Hw := fresh "Hw" in
      eassert (Hw : videos S !! i = Some _)
        by (run_pure; first [eassumption | apply lookup_insert_eq]);
      let Hc := fresh "Hc" in
      pose proof (updateVideoStatus_own e i t u S _ Hw
                    ltac:(first [exact Ht | cbn; exact Ht])) as Hc;
      destruct Hc as [[?m ->]| ->]
  end; run_pure.

Ltac own_document_done Ht :=
  cbn beta iota zeta delta [fst snd]; run_pure;
  first
    [ exact I
    | eexists; split;
      [first [eassumption | apply lookup_insert_eq]
      |split; [first [exact Ht | cbn; exact Ht]|reflexivity]] ].

(** When the [try] block of the orchestrator throws, the document of the
    run is still there, in its tenant, with the safety status it had. *)
Lemma try_failure_keeps_safety
    (v : variant) e tempDir videoId tenantId io st video :
  videos st !! videoId = Some video -> v_tenantId video = tenantId ->
  let rs := processVideo_try (service_of v) e tempDir videoId tenantId io st in
  match fst rs with
  | Ok _ => True
  | Err _ =>
      exists w, videos (snd rs) !! videoId = Some w /\
                v_tenantId w = tenantId /\
                v_safetyStatus w = v_safetyStatus video
  end.
Proof.
  intros Hv Ht. unfold processVideo_try, bind.
  destruct (Video_findOne_own e videoId tenantId st video Hv Ht)
    as [[m ->]| ->]; [own_document_done Ht|].
  destruct io; run_pure.
  all: run_own_update Ht; [own_document_done Ht|].
  all: match goal with
       | |- context [getVideoMetadata ?e ?p ?S] =>
           destruct (getVideoMetadata_ok e p S) as [duration ->]
       end; run_pure.
  all: run_own_update Ht; [own_document_done Ht|].
  all: match goal with
       | |- context [analyzeVideoSensitivity (service_of ?v) ?e ?d ?p ?S] =>
           destruct (analyze_explicit v e d p S) as (vd & f & n & ->)
       end; run_pure.
  all: run_own_update Ht; own_document_done Ht.
Qed.

(** The [catch] block on the run's own document: the safety status and
    the duration stay, the status becomes [failed] when the database
    accepts the update, and the last event reports the failure. *)
Lemma catch_marks_failed e videoId tenantId io msg st w :
  videos st !! videoId = Some w -> v_tenantId w = tenantId ->
  let st' := snd (processVideo_catch e videoId tenantId io msg st) in
  exists w',
    videos st' !! videoId = Some w' /\
    v_safetyStatus w' = v_safetyStatus w /\
    (db_refuses e
       (op_findOneAndUpdate videoId tenantId
          {| u_status := Some failed; u_safetyStatus := None;
             u_duration := None |}) = None ->
     v_status w' = failed) /\
    (io = true ->
     last (emitted st') =
       Some (("tenant:" ++ tenantId)%string,
             processing_failed videoId
               (if String.eqb msg "" then "Processing failed" else msg))).
Proof.
  intros Hv Ht. unfold processVideo_catch, bind, swallow, try_catch.
  unfold updateVideoStatus, bind, guard_refusal, throw, ret.
  destruct (db_refuses e (op_findOneAndUpdate _ _ _)) eqn:Hdb.
  - destruct io; run_pure; cbn beta iota zeta delta [fst snd]; run_pure;
      (exists w; split; [exact Hv|]; split; [reflexivity|];
       split; [discriminate|]);
      first [intros _; apply last_snoc|discriminate].
  - rewrite Hv, Ht, String.eqb_refl.
    destruct io; run_pure; cbn beta iota zeta delta [fst snd]; run_pure;
      (eexists; split; [apply lookup_insert_eq|]; split; [reflexivity|];
       split; [reflexivity|]);
      first [intros _; apply last_snoc|discriminate].
Qed.

(** X26: when the [try] block of a run throws after the document was
    there (a request to the database was refused), no verdict is
    stored: the document keeps the safety status it had; its status is
    [failed] when the database accepts that last update, and the last
    event, with a socket server attached, is [processing:failed] with
    the message of the error. *)
Theorem X26_failed_run_stores_no_verdict
    (v : variant) e tempDir videoId tenantId io st video msg :
  videos st !! videoId = Some video -> v_tenantId video = tenantId ->
  fst (processVideo_try (service_of v) e tempDir videoId tenantId io st)
    = Err msg ->
  let st' :=
    snd (processVideo (service_of v) e tempDir videoId tenantId io st) in
  exists w,
    videos st' !! videoId = Some w /\
    v_safetyStatus w = v_safetyStatus video /\
    (db_refuses e
       (op_findOneAndUpdate videoId tenantId
          {| u_status := Some failed; u_safetyStatus := None;
             u_duration := None |}) = None ->
     v_status w = failed) /\
    (io = true ->
     last (emitted st') =
       Some (("tenant:" ++ tenantId)%string,
             processing_failed videoId
               (if String.eqb msg "" then "Processing failed" else msg))).
Proof.
  intros Hv Ht Hfail.
  pose proof (try_failure_keeps_safety v e tempDir videoId tenantId io st
                video Hv Ht) as Htry.
  cbv zeta in Htry. unfold processVideo, try_catch.
  destruct (processVideo_try (service_of v) e tempDir videoId tenantId io st)
    as [[[]|m] st1]; simpl in Hfail, Htry; [discriminate|].
  injection Hfail as ->.
  destruct Htry as (w & Hw & Htw & Hsw).
  destruct (catch_marks_failed e videoId tenantId io msg st1 w Hw Htw)
    as (w' & Hw' & Hs' & Hst' & Hev').
  exists w'. split; [exact Hw'|]. split; [congruence|].
  split; [exact Hst'|exact Hev'].
Qed.

Lemma X26_witness :
  exists w,
    videos (snd (processVideo (service_of PixelStatistics)
                   env_db_down_at_duration sample_tempDir "v1" "t1" true
                   sample_state)) !! "v1" = Some w /\
    v_safetyStatus w = unknown /\ v_status w = failed.
Proof.
  assert (Hv : videos sample_state !! "v1" = Some sample_video)
    by (vm_compute; reflexivity).
  assert (Hfail : fst (processVideo_try (service_of PixelStatistics)
                         env_db_down_at_duration sample_tempDir "v1" "t1"
                         true sample_state) = Err "connection lost")
    by (vm_compute; reflexivity).
  destruct (X26_failed_run_stores_no_verdict PixelStatistics
              env_db_down_at_duration sample_tempDir "v1" "t1" true
              sample_state sample_video "connection lost" Hv eq_refl Hfail)
    as (w & Hw & Hs & Hst & _).
  exists w. split; [exact Hw|]. split; [exact Hs|]. apply Hst. reflexivity.
Defined.

(** ** The errors of frame extraction *)

(** X21: the message of an error thrown by frame extraction tells its
    origin: a failed probe, a failed decoder run and a failed directory
    listing are reported under their own prefix; the refusal to create
    the output folder is the only error passed on as it is. *)
Theorem X21_extraction_error_origin
    cap e videoPath outputDir interval st msg :
  fst (extractFrames cap e videoPath outputDir interval st) = Err msg ->
  os_refuses e (op_mkdir outputDir) = Some msg \/
  (exists m, ffprobe e videoPath = Err m /\
             msg = "Failed to probe video: " ++ m) \/
  (exists probed written m,
     ffprobe e videoPath = Ok probed /\
     screenshots e videoPath (timestamps cap probed interval)
       = (written, Some m) /\
     msg = "Frame extraction failed: " ++ m) \/
  (exists m, os_refuses e (op_readdir outputDir) = Some m /\
             msg = "Failed to read extracted frames: " ++ m).
Proof.
  unfold extractFrames, bind at 1, existsSync.
  destruct (fs st !! outputDir) as [d0|] eqn:Hd.
  - rewrite bool_decide_eq_true_2 by eauto. simpl negb. cbv iota.
    unfold bind at 1, ret at 1. unfold bind at 1.
    unfold rethrow at 1, try_catch, ffprobe_call.
    destruct (ffprobe e videoPath) as [probed|m];
      [|unfold throw; simpl; intros [= <-]; right; left; eauto].
    unfold bind at 1, rethrow at 1, try_catch, ffmpeg_screenshots.
    destruct (screenshots e videoPath _) as [written err] eqn:Hs. rewrite Hd.
    destruct err as [m|];
      [unfold throw; simpl; intros [= <-]; right; right; left; eauto 10|].
    unfold bind, rethrow, try_catch, readdir, bind, guard_refusal.
    destruct (os_refuses e (op_readdir outputDir)) as [m|];
      [unfold throw; simpl; intros [= <-]; right; right; right; eauto|].
    unfold ret. cbn [fs with_fs]. rewrite lookup_insert_eq. discriminate.
  - rewrite bool_decide_eq_false_2 by (intros [? ?]; discriminate).
    simpl negb. cbv iota. unfold bind at 1, mkdirSync, bind, guard_refusal.
    destruct (os_refuses e (op_mkdir outputDir)) as [m|];
      [unfold throw; simpl; intros [= <-]; left; reflexivity|].
    unfold ret at 1. rewrite Hd.
    unfold rethrow at 1, try_catch, ffprobe_call.
    destruct (ffprobe e videoPath) as [probed|m];
      [|unfold throw; simpl; intros [= <-]; right; left; eauto].
    unfold rethrow at 1, try_catch, ffmpeg_screenshots.
    destruct (screenshots e videoPath _) as [written err] eqn:Hs.
    cbn [fs with_fs].
    pose proof (fs_after_mkdir_there outputDir (fs st) Hd) as Hthere.
    unfold fs_after_mkdir in Hthere. rewrite Hd in Hthere. rewrite Hthere.
    destruct err as [m|];
      [unfold throw; simpl; intros [= <-]; right; right; left; eauto 10|].
    unfold rethrow, try_catch, readdir, bind, guard_refusal.
    destruct (os_refuses e (op_readdir outputDir)) as [m|];
      [unfold throw; simpl; intros [= <-]; right; right; right; eauto|].
    unfold ret. cbn [fs with_fs]. rewrite lookup_insert_eq. discriminate.
Qed.

Lemma X21_witness :
  fst (extractFrames 30 env_locked_frame "uploads/t1/clip.mp4"
         sample_tempDir 5 sample_state)
  = Err "Frame extraction failed: ffmpeg exited with code 1" /\
  exists m, "Frame extraction failed: ffmpeg exited with code 1"
            = "Frame extraction failed: " ++ m.
Proof.
  assert (HE : fst (extractFrames 30 env_locked_frame "uploads/t1/clip.mp4"
                      sample_tempDir 5 sample_state)
               = Err "Frame extraction failed: ffmpeg exited with code 1")
    by (vm_compute; reflexivity).
  split; [exact HE|].
  destruct (X21_extraction_error_origin 30 env_locked_frame
              "uploads/t1/clip.mp4" sample_tempDir 5 sample_state _ HE)
    as [H|[(m & H & _)|[(p & w & m & _ & _ & H)|(m & H & _)]]];
    try discriminate H.
  exists m. exact H.
Defined.

(** ** The clean-up after a failed extraction *)



(** ** Frames that cannot be read *)

(** X29: a frame whose file is missing, or whose [stat] request is
    refused, scores exactly 0 in both services, and scoring it changes
    nothing (no random number is drawn). *)
Theorem X29_unreadable_frame_scores_zero (v : variant) e p st :
  lookup_file st p = None \/ is_Some (os_refuses e (op_stat p)) ->
  analyzeFrame (service_of v) e p st = (Ok 0%Q, st).
Proof.
  intros H.
  assert (Hstat : exists m, stat e p st = (Err m, st)).
  { unfold stat, bind, guard_refusal, throw, ret.
    destruct H as [H|[m H]].
    - destruct (os_refuses e (op_stat p)); rewrite ?H; eauto.
    - rewrite H. eauto. }
  destruct Hstat as [m Hstat].
  destruct v; simpl;
    unfold PixelStats.analyzeFrame, PixelStats.analyzeFrame_try,
      FileSize.analyzeFrame, FileSize.analyzeFrame_try, try_catch, bind;
    rewrite Hstat; reflexivity.
Qed.

Lemma X29_witness :
  analyzeFrame (service_of FileSizeOnly) env_ok
    (path_join sample_tempDir "frame_00:00:05.jpg") sample_state_with_frame
  = (Ok 0%Q, sample_state_with_frame).
Proof.
  apply (X29_unreadable_frame_scores_zero FileSizeOnly env_ok
           (path_join sample_tempDir "frame_00:00:05.jpg")
           sample_state_with_frame).
  left. vm_compute. reflexivity.
Defined.

(** X30: in the pixel-statistics service a frame that the image library
    cannot decode, or that has fewer than three channels (a greyscale
    image), scores exactly 0 whatever its size. *)
Theorem X30_greyscale_frame_scores_zero e p st f :
  lookup_file st p = Some f ->
  match image f with
  | Ok channels => (length channels < 3)%nat
  | Err _ => True
  end ->
  PixelStats.analyzeFrame e p st = (Ok 0%Q, st).
Proof.
  intros Hf Himg.
  unfold PixelStats.analyzeFrame, PixelStats.analyzeFrame_try, try_catch,
    bind, stat, sharp_stats, bind, guard_refusal, throw, ret.
  destruct (os_refuses e (op_stat p)); [reflexivity|].
  rewrite Hf.
  destruct (os_refuses e (op_decode p)); [reflexivity|].
  rewrite Hf. revert Himg.
  destruct (image f) as [[|r [|g [|b rest]]]|m]; intros Himg;
    try reflexivity.
  simpl in Himg. lia.
Qed.

Lemma X30_witness :
  PixelStats.analyzeFrame env_ok (path_join sample_tempDir "grey.jpg")
    (with_fs {[ sample_tempDir :=
                  {[ "grey.jpg" :=
                       {| size := 250000;
                          image := Ok [ {| mean := 128; stdev := 70 |} ] |} ]} ]}
             sample_state)
  = (Ok 0%Q,
     with_fs {[ sample_tempDir :=
                  {[ "grey.jpg" :=
                       {| size := 250000;
                          image := Ok [ {| mean := 128; stdev := 70 |} ] |} ]} ]}
             sample_state).
Proof.
  eapply (X30_greyscale_frame_scores_zero env_ok
            (path_join sample_tempDir "grey.jpg")).
  - vm_compute. reflexivity.
  - simpl. lia.
Defined.

(** ** The job registry *)

Ltac registry_done :=
  unfold queue_delete; cbn beta iota zeta delta [fst snd]; run_pure;
  split;
  [ intros id Hid;
    rewrite ?lookup_delete_ne, ?lookup_insert_ne by congruence; reflexivity
  | intros k Hk;
    rewrite ?list_lookup_alter_ne by lia;
    rewrite ?lookup_app_l by lia; reflexivity ].

(** A run changes the queue at its own key only, and no job object that
    existed before. *)
Lemma run_keeps_other_jobs (v : variant) e tempDir videoId tenantId io st :
  let st' :=
    snd (processVideo (service_of v) e tempDir videoId tenantId io st) in
  (forall id, id <> videoId ->
     processingQueue st' !! id = processingQueue st !! id) /\
  (forall k, (k < length (heap st))%nat -> heap st' !! k = heap st !! k).
Proof.
  unfold processVideo, try_catch, processVideo_try, processVideo_catch,
    swallow, try_catch, bind.
  destruct io; run_pure.
  all: run_call.
  all: try (run_call; registry_done).
  all: run_call.
  all: try (run_call; registry_done).
  all: run_call.
  all: run_call.
  all: try (run_call; registry_done).
  all: run_call.
  all: run_call.
  all: try (run_call; registry_done).
  all: registry_done.
Qed.

(** X28: a run for one video does not disturb the jobs of the others:
    for every other video whose queue entry refers to an existing job
    object, a status query gives the same answer after the run as
    before. *)
Theorem X28_other_jobs_undisturbed
    (v : variant) e tempDir videoId tenantId io st id :
  id <> videoId ->
  (forall k, processingQueue st !! id = Some k ->
             (k < length (heap st))%nat) ->
  getProcessingStatus
    (snd (processVideo (service_of v) e tempDir videoId tenantId io st)) id
  = getProcessingStatus st id.
Proof.
  intros Hid Hwf.
  destruct (run_keeps_other_jobs v e tempDir videoId tenantId io st)
    as [Hq Hh].
  unfold getProcessingStatus. rewrite (Hq id Hid).
  destruct (processingQueue st !! id) as [k|] eqn:Hk; [|reflexivity].
  simpl. apply Hh, Hwf. reflexivity.
Qed.

Lemma X28_witness :
  getProcessingStatus
    (snd (processVideo (service_of PixelStatistics) env_ok sample_tempDir
            "v1" "t1" true sample_state_busy)) "v2"
  = Some {| j_videoId := "v2"; j_tenantId := "t2";
            j_status := job_processing; j_progress := 30;
            j_safetyStatus := None |}.
Proof.
  rewrite (X28_other_jobs_undisturbed PixelStatistics env_ok sample_tempDir
             "v1" "t1" true sample_state_busy "v2").
  - vm_compute. reflexivity.
  - discriminate.
  - intros k Hk. vm_compute in Hk. injection Hk as <-. simpl. lia.
Defined.

(** ** Two runs on the same video *)

Lemma same_answers_sym e d1 d2 : same_answers e d1 d2 -> same_answers e d2 d1.
Proof. intros (H1 & H2 & H3 & H4). repeat split; intros; symmetry; auto. Qed.

(** A successful extraction into a directory that was missing: no
    request was refused. *)
Lemma extractFrames_fresh_ok_inv cap e videoPath dir i st frames st1 :
  fs st !! dir = None ->
  extractFrames cap e videoPath dir i st = (Ok frames, st1) ->
  exists probed written,
    os_refuses e (op_mkdir dir) = None /\
    os_refuses e (op_readdir dir) = None /\
    ffprobe e videoPath = Ok probed /\
    screenshots e videoPath (timestamps cap probed i) = (written, None).
Proof.
  intros Hd.
  unfold extractFrames, bind at 1, existsSync. rewrite Hd.
  rewrite bool_decide_eq_false_2 by (intros [? ?]; discriminate).
  simpl negb. cbv iota. unfold bind at 1, mkdirSync, bind, guard_refusal.
  destruct (os_refuses e (op_mkdir dir)) eqn:Hmk;
    [unfold throw; discriminate|].
  unfold ret at 1. rewrite Hd.
  unfold rethrow at 1, try_catch, ffprobe_call.
  destruct (ffprobe e videoPath) as [probed|msg];
    [|unfold throw; discriminate].
  unfold rethrow at 1, try_catch, ffmpeg_screenshots.
  destruct (screenshots e videoPath _) as [written err] eqn:Hs.
  cbn [fs with_fs].
  pose proof (fs_after_mkdir_there dir (fs st) Hd) as Hthere.
  unfold fs_after_mkdir in Hthere. rewrite Hd in Hthere. rewrite Hthere.
  destruct err as [msg|]; [unfold throw; discriminate|].
  unfold rethrow, try_catch, readdir, bind, guard_refusal.
  destruct (os_refuses e (op_readdir dir)) eqn:Hrd;
    [unfold throw; discriminate|].
  intros _. exists probed, written. auto.
Qed.

(** Two extractions of the same video into two directories that were
    missing: when the first succeeds so does the second, and the two
    directories hold the same files. *)
Lemma extractFrames_fresh_transfer cap e videoPath d1 d2 i st1 st2 frames s1 :
  fs st1 !! d1 = None -> fs st2 !! d2 = None -> same_answers e d1 d2 ->
  extractFrames cap e videoPath d1 i st1 = (Ok frames, s1) ->
  exists D s2,
    frames = jpg_paths d1 D /\ fs s1 !! d1 = Some D /\
    extractFrames cap e videoPath d2 i st2 = (Ok (jpg_paths d2 D), s2) /\
    fs s2 !! d2 = Some D.
Proof.
  intros H1 H2 (Hmk & Hrd & _) HE.
  destruct (extractFrames_fresh_ok_inv _ _ _ _ _ _ _ _ H1 HE)
    as (probed & written & Hmk1 & Hrd1 & Hp & Hs).
  pose proof (extractFrames_ok cap e videoPath d1 i st1 probed written
                Hmk1 Hrd1 Hp Hs) as E1.
  rewrite Hmk1 in Hmk. rewrite Hrd1 in Hrd.
  pose proof (extractFrames_ok cap e videoPath d2 i st2 probed written
                (eq_sym Hmk) (eq_sym Hrd) Hp Hs) as E2.
  cbv zeta in E1, E2. rewrite H1 in E1. rewrite H2 in E2.
  rewrite HE in E1. injection E1 as -> ->.
  eexists _, _. split; [reflexivity|]. split; [|split; [exact E2|]].
  - cbn [fs with_fs]. apply lookup_insert_eq.
  - cbn [fs with_fs]. apply lookup_insert_eq.
Qed.

Lemma pixel_frame_keeps_fs e p st :
  fs (snd (PixelStats.analyzeFrame e p st)) = fs st.
Proof.
  apply fs_outside_nothing.
  apply (fso_analyzeFrame (fun _ => False) [] PixelStatistics e p).
Qed.

(** The score of a frame depends on the file and on the answers to the
    [stat] and decoding requests only. *)
Lemma pixel_frame_same e d1 d2 f sa sb :
  fs sa !! d1 = fs sb !! d2 ->
  os_refuses e (op_stat (path_join d1 f))
    = os_refuses e (op_stat (path_join d2 f)) ->
  os_refuses e (op_decode (path_join d1 f))
    = os_refuses e (op_decode (path_join d2 f)) ->
  fst (PixelStats.analyzeFrame e (path_join d1 f) sa) =
  fst (PixelStats.analyzeFrame e (path_join d2 f) sb).
Proof.
  intros Hfs Hst Hdec.
  unfold PixelStats.analyzeFrame, PixelStats.analyzeFrame_try, try_catch,
    bind, stat, sharp_stats, bind, guard_refusal, lookup_file.
  rewrite Hst, Hdec. cbn [path_join fst snd].
  destruct (os_refuses e (op_stat (path_join d2 f)));
    [reflexivity|].
  unfold ret at 1 5. cbv beta iota. cbn [fst snd]. rewrite Hfs.
  destruct (fs sb !! d2 ≫= λ d : gmap string file, d !! f) as [f0|] eqn:Hf;
    [|reflexivity].
  cbv beta iota.
  destruct (os_refuses e (op_decode (path_join d2 f))); [reflexivity|].
  unfold ret, throw. cbv beta iota. rewrite Hfs, Hf.
  destruct (image f0) as [[|r [|g [|b ?]]]|]; reflexivity.
Qed.

Lemma pixel_scores_same e d1 d2 (l : list string) :
  (forall f, os_refuses e (op_stat (path_join d1 f))
             = os_refuses e (op_stat (path_join d2 f))) ->
  (forall f, os_refuses e (op_decode (path_join d1 f))
             = os_refuses e (op_decode (path_join d2 f))) ->
  forall sa sb,
    fs sa !! d1 = fs sb !! d2 ->
    fst (for_push (map (path_join d1) l) (PixelStats.analyzeFrame e) sa) =
    fst (for_push (map (path_join d2) l) (PixelStats.analyzeFrame e) sb).
Proof.
  intros Hst Hdec. induction l as [|f l IH]; intros sa sb Hfs; simpl;
    [reflexivity|].
  unfold bind.
  pose proof (pixel_frame_same e d1 d2 f sa sb Hfs (Hst f) (Hdec f)) as Hf.
  pose proof (pixel_frame_keeps_fs e (path_join d1 f) sa) as Ka.
  pose proof (pixel_frame_keeps_fs e (path_join d2 f) sb) as Kb.
  destruct (PixelStats.analyzeFrame e (path_join d1 f) sa) as [[x|m] sa'],
           (PixelStats.analyzeFrame e (path_join d2 f) sb) as [[y|m'] sb'];
    simpl in Hf, Ka, Kb; try discriminate Hf;
    [|simpl; congruence].
  injection Hf as <-.
  assert (Hfs' : fs sa' !! d1 = fs sb' !! d2) by (rewrite Ka, Kb; exact Hfs).
  specialize (IH sa' sb' Hfs').
  destruct (for_push (map (path_join d1) l) (PixelStats.analyzeFrame e) sa')
    as [[xs|m] ?],
    (for_push (map (path_join d2) l) (PixelStats.analyzeFrame e) sb')
    as [[ys|m'] ?]; simpl in IH |- *; congruence.
Qed.

(** Two pixel-statistics runs on the same video, each in a directory
    that was missing: when extraction succeeds in the first, both runs
    give the same verdict. *)
Lemma pixel_two_runs_ok e d1 d2 videoPath st1 st2 frames s1 :
  fs st1 !! d1 = None -> fs st2 !! d2 = None -> same_answers e d1 d2 ->
  extractFrames (frame_cap pixel_service) e videoPath d1 5 st1
    = (Ok frames, s1) ->
  fst (analyzeVideoSensitivity pixel_service e d1 videoPath st1) =
  fst (analyzeVideoSensitivity pixel_service e d2 videoPath st2).
Proof.
  intros H1 H2 Hsame E1.
  destruct (extractFrames_fresh_transfer _ _ _ _ _ _ _ _ _ _ H1 H2 Hsame E1)
    as (D & s2 & -> & HD1 & E2 & HD2).
  destruct Hsame as (_ & _ & Hst & Hdec).
  destruct (scoring_total PixelStatistics e (jpg_paths d1 D) s1)
    as (sc1 & s1' & HS1).
  destruct (scoring_total PixelStatistics e (jpg_paths d2 D) s2)
    as (sc2 & s2' & HS2).
  assert (Hsc : sc1 = sc2).
  { pose proof (pixel_scores_same e d1 d2
                  (filter (fun f => Is_true (endsWith f ".jpg"))
                          (map fst (map_to_list D)))
                  Hst Hdec s1 s2 (eq_trans HD1 (eq_sym HD2))) as H.
    change (fst (for_push (jpg_paths d1 D)
                   (analyzeFrame (service_of PixelStatistics) e) s1) =
            fst (for_push (jpg_paths d2 D)
                   (analyzeFrame (service_of PixelStatistics) e) s2)) in H.
    rewrite HS1, HS2 in H. simpl in H. congruence. }
  destruct (analyze_verdict pixel_service e d1 videoPath st1 _ _ _ _ E1 HS1)
    as (st1' & ->).
  destruct (analyze_verdict pixel_service e d2 videoPath st2 _ _ _ _ E2 HS2)
    as (st2' & ->).
  simpl. now rewrite Hsc.
Qed.

Lemma pixel_two_runs e d1 d2 videoPath st1 st2 :
  fs st1 !! d1 = None -> fs st2 !! d2 = None -> same_answers e d1 d2 ->
  fst (analyzeVideoSensitivity pixel_service e d1 videoPath st1) =
  fst (analyzeVideoSensitivity pixel_service e d2 videoPath st2).
Proof.
  intros H1 H2 Hsame.
  destruct (extractFrames (frame_cap pixel_service) e videoPath d1 5 st1)
    as [[frames1|m1] s1] eqn:E1.
  { now apply (pixel_two_runs_ok e d1 d2 videoPath st1 st2 frames1 s1). }
  destruct (extractFrames (frame_cap pixel_service) e videoPath d2 5 st2)
    as [[frames2|m2] s2] eqn:E2.
  { symmetry.
    apply (pixel_two_runs_ok e d2 d1 videoPath st2 st1 frames2 s2);
      auto using same_answers_sym. }
  destruct (analyze_extraction_error_spec _ _ _ _ _ _ _ E1) as (? & -> & _).
  destruct (analyze_extraction_error_spec _ _ _ _ _ _ _ E2) as (? & -> & _).
  reflexivity.
Qed.

(** C4 (amended): the pixel-statistics scorer contains no randomness;
    the file-size-only scorer draws a random number for every frame.
    Yet in both services two runs on the same video give the same
    verdict, whatever [Math.random()] returns, when each run works in a
    temporary directory of its own that does not exist when the run
    starts and the collaborators answer alike: the same probe and
    decoder results, and the same answers of the operating system to
    the [mkdir], [readdir], [stat] and decoding requests in the two
    directories. *)
Theorem C4_verdict_deterministic
    (v : variant) (e : env) (r1 r2 : nat -> Q)
    (dir1 dir2 videoPath : string) (st1 st2 : state) :
  unit_interval r1 -> unit_interval r2 ->
  fs st1 !! dir1 = None -> fs st2 !! dir2 = None ->
  same_answers e dir1 dir2 ->
  scoring_without_randomness PixelStatistics /\
  fst (analyzeVideoSensitivity (service_of v) (with_random r1 e)
         dir1 videoPath st1) =
  fst (analyzeVideoSensitivity (service_of v) (with_random r2 e)
         dir2 videoPath st2).
Proof.
  intros H1 H2 Hd1 Hd2 Hsame. split.
  - intros e' q1 q2 p st _ _. simpl.
    rewrite (pixel_score_ignores_random q1), (pixel_score_ignores_random q2).
    reflexivity.
  - destruct v; simpl service_of.
    + rewrite !pixel_ignores_random.
      now apply pixel_two_runs.
    + assert (Hs : forall r d st, unit_interval r ->
                fst (analyzeVideoSensitivity filesize_service
                       (with_random r e) d videoPath st) = Ok safe).
      { intros r d st Hr. apply filesize_run_safe. exact Hr. }
      rewrite (Hs r1 dir1 st1 H1), (Hs r2 dir2 st2 H2). reflexivity.
Qed.

Lemma C4_witness :
  unit_interval (fun _ => 0%Q) /\ unit_interval (fun _ => 0.5%Q) /\
  fs sample_state !! "temp/frames_1" = None /\
  fs sample_state_after_run !! "temp/frames_2" = None /\
  same_answers (env_threshold 15) "temp/frames_1" "temp/frames_2" /\
  fst (analyzeVideoSensitivity pixel_service
         (with_random (fun _ => 0%Q) (env_threshold 15)) "temp/frames_1"
         "uploads/t1/clip.mp4" sample_state) = Ok flagged /\
  fst (analyzeVideoSensitivity pixel_service
         (with_random (fun _ => 0.5%Q) (env_threshold 15)) "temp/frames_2"
         "uploads/t1/clip.mp4" sample_state_after_run) = Ok flagged.
Proof.
  assert (H0 : unit_interval (fun _ => 0%Q))
    by (intros n; split; [discriminate|reflexivity]).
  assert (H1 : unit_interval (fun _ => 0.5%Q))
    by (intros n; split; [discriminate|reflexivity]).
  assert (Hd1 : fs sample_state !! "temp/frames_1" = None)
    by (vm_compute; reflexivity).
  assert (Hd2 : fs sample_state_after_run !! "temp/frames_2" = None)
    by (vm_compute; reflexivity).
  assert (Hsame : same_answers (env_threshold 15)
                    "temp/frames_1" "temp/frames_2")
    by (repeat split; intros; reflexivity).
  assert (Hrun : fst (analyzeVideoSensitivity pixel_service
                        (with_random (fun _ => 0%Q) (env_threshold 15))
                        "temp/frames_1" "uploads/t1/clip.mp4" sample_state)
                 = Ok flagged) by (vm_compute; reflexivity).
  split; [exact H0|]. split; [exact H1|]. split; [exact Hd1|].
  split; [exact Hd2|]. split; [exact Hsame|]. split; [exact Hrun|].
  rewrite <- Hrun.
  symmetry.
  exact (proj2 (C4_verdict_deterministic PixelStatistics (env_threshold 15)
                  _ _ "temp/frames_1" "temp/frames_2" "uploads/t1/clip.mp4"
                  sample_state sample_state_after_run H0 H1 Hd1 Hd2 Hsame)).
Defined.
